(** * Watch-folder ingestion and scheduling: a shallow embedding

    The definitions below follow [src/python/processors/watch_folder.py]:
    the file-event handler ([WatchFolderHandler]), the priority queue
    ([ProcessingQueue]) and the processor with its worker loop
    ([WatchFolderProcessor]).  Python integers are [Z], wall-clock readings
    ([time.time()], [datetime.now()]) are rationals, dictionaries used as
    maps are [gmap]s, sets are [gset]s, and the answers of the file system
    and of the audio libraries are read from an explicit [World]. *)

From Stdlib Require Import ZArith QArith String Ascii List Permutation Sorted Lia Lqa.
From stdpp Require Import base gmap strings list.

Open Scope string_scope.
Open Scope Z_scope.

(** Wall-clock readings in seconds.  The rendering of a reading as ISO text
    ([isoformat()]) is left out: a field that holds such a text holds the
    reading itself. *)
Definition timestamp : Type := Q.

(* ------------------------------------------------------------------ *)
(** ** Strings and paths *)

Module Str.

(** [str.lower()] on the bytes of the text: the letters A-Z are mapped to
    a-z, every other byte is kept. *)
Definition lower_char (c : ascii) : ascii :=
  let n := nat_of_ascii c in
  if ((65 <=? n)%nat && (n <=? 90)%nat)%bool then ascii_of_nat (n + 32) else c.

Fixpoint lower (s : string) : string :=
  match s with
  | EmptyString => EmptyString
  | String c s' => String (lower_char c) (lower s')
  end.

Fixpoint upper (s : string) : string :=
  match s with
  | EmptyString => EmptyString
  | String c s' =>
      let n := nat_of_ascii c in
      String (if ((97 <=? n)%nat && (n <=? 122)%nat)%bool
              then ascii_of_nat (n - 32) else c) (upper s')
  end.

End Str.

Module PathLib.

(** [split_at c cs]: the characters before the first [c] of [cs], and
    those after it when [c] occurs. *)
Fixpoint split_at (c : ascii) (cs : list ascii) : list ascii * option (list ascii) :=
  match cs with
  | [] => ([], None)
  | x :: xs =>
      if Ascii.eqb x c then ([], Some xs)
      else let '(pre, post) := split_at c xs in (x :: pre, post)
  end.

Definition chars (p : string) : list ascii := list_ascii_of_string p.
Definition text (cs : list ascii) : string := string_of_list_ascii cs.

(** [Path(p).name]: the last component of the path. *)
Definition name (p : string) : string :=
  text (rev (fst (split_at "/"%char (rev (chars p))))).

(** [Path(p).parent] *)
Definition parent (p : string) : string :=
  match snd (split_at "/"%char (rev (chars p))) with
  | None => "."
  | Some [] => "/"
  | Some r => text (rev r)
  end.

(** [Path(p).suffix]: from the last dot of the name, when that dot is
    neither the first nor the last character of the name. *)
Definition suffix (p : string) : string :=
  match split_at "."%char (rev (chars (name p))) with
  | (e :: ext, Some (s :: stem)) => text ("."%char :: rev (e :: ext))
  | _ => ""
  end.

(** [Path(p).stem]: the name without its suffix. *)
Definition stem (p : string) : string :=
  match split_at "."%char (rev (chars (name p))) with
  | (e :: ext, Some (s :: stem)) => text (rev (s :: stem))
  | _ => name p
  end.

(** [p / q] *)
Definition join (p q : string) : string := String.append p (String.append "/" q).

End PathLib.

(* ------------------------------------------------------------------ *)
(** ** Tasks and the processing queue *)

(** The dictionary [enqueue_file] puts on the queue. *)
Record Task : Type := mkTask {
  file_path : string;
  priority : string;
  enqueued_time : timestamp;
  status : string
}.

Module ProcessingQueue.

(** An entry of the underlying [queue.PriorityQueue]: the tuple
    [(priority, task_id, item)]. *)
Definition entry : Type := Z * Z * Task.

Definition entry_priority (e : entry) : Z := fst (fst e).
Definition entry_id (e : entry) : Z := snd (fst e).
Definition entry_item (e : entry) : Task := snd e.

(** Python's [<] on two such tuples: the priorities decide, then the task
    ids.  Two entries of one queue never agree on both (see
    [reachable_ids_distinct] below), so the dictionaries, which Python could
    not order, are never compared. *)
Definition entry_ltb (a b : entry) : bool :=
  (entry_priority a <? entry_priority b)
  || ((entry_priority a =? entry_priority b) && (entry_id a <? entry_id b)).

(** [queue.PriorityQueue] is Python's library class; it is modelled by its
    contract.  The queue holds a bag of entries, [put] adds one, and
    [get_nowait] removes and returns the lowest one, or raises [Empty]
    (here [None]) when there is none. *)
Definition put (e : entry) (h : list entry) : list entry := h ++ [e].

Fixpoint select (x : entry) (l : list entry) : entry * list entry :=
  match l with
  | [] => (x, [])
  | y :: l' =>
      if entry_ltb y x
      then let '(m, r) := select y l' in (m, x :: r)
      else let '(m, r) := select x l' in (m, y :: r)
  end.

Definition get_nowait (h : list entry) : option (entry * list entry) :=
  match h with
  | [] => None
  | x :: l => Some (select x l)
  end.

Record t : Type := mk {
  queue : list entry;
  task_id : Z
}.

(** [__init__] *)
Definition init : t := mk [] 0.

(** [enqueue(item, priority)] *)
Definition enqueue (item : Task) (priority : Z) (q : t) : t :=
  let task_id' := task_id q + 1 in
  mk (put (priority, task_id', item) (queue q)) task_id'.

(** [dequeue()]: the item of the lowest entry, or [None] at once when the
    queue is empty. *)
Definition dequeue (q : t) : option Task * t :=
  match get_nowait (queue q) with
  | Some ((_, _, item), rest) => (Some item, mk rest (task_id q))
  | None => (None, q)
  end.

(** [size()] *)
Definition size (q : t) : Z := Z.of_nat (length (queue q)).

(** [empty()] *)
Definition empty (q : t) : bool :=
  match queue q with [] => true | _ => false end.

(** Calling [dequeue] until it answers [None]; the items in the order
    they come out.  [fuel] bounds the number of calls. *)
Fixpoint drain (fuel : nat) (q : t) : list Task :=
  match fuel with
  | O => []
  | S fuel' =>
      match dequeue q with
      | (Some item, q') => item :: drain fuel' q'
      | (None, _) => []
      end
  end.

Definition dequeue_all (q : t) : list Task := drain (length (queue q)) q.

End ProcessingQueue.

(* ------------------------------------------------------------------ *)
(** ** What the outside world answers *)

(** A call into the file system or into an audio library either returns a
    value or raises an exception, carried here by its message ([str(e)]). *)
Inductive outcome (A : Type) : Type :=
  | Returns (a : A)
  | Raises (e : string).
Arguments Returns {A} a.
Arguments Raises {A} e.

(** A loaded signal: the number of dimensions of the array, its samples and
    whether the array is seen transposed ([audio.T]). *)
Record Audio : Type := mkAudio {
  ndim : Z;
  transposed : bool;
  samples : list Q
}.

Definition T (a : Audio) : Audio :=
  mkAudio (ndim a) (negb (transposed a)) (samples a).

(** The dictionary returned by [analyze_audio_metadata], values rendered as
    text. *)
Definition Metadata : Type := gmap string string.

(** The answers of the environment during one call of the code: the
    validation verdict for a path, the behaviour of each library call, and
    the readings of the clock. *)
Record World : Type := mkWorld {
  validate_audio_file : string -> bool * string;
  analyze_audio_metadata : string -> Metadata;
  ensure_directory : string -> outcome unit;
  copy2 : string -> string -> outcome unit;
  librosa_load : string -> Z -> outcome (Audio * Z);
  process_full : Audio -> Q -> outcome Audio;
  master_track : Audio -> string -> outcome Audio;
  sf_write : string -> Audio -> Z -> outcome unit;
  unlink : string -> outcome unit;
  write_log_line : string -> outcome unit;
  (** [time.time()]: as an event handler reads it, at the start and at the
      end of [process_file], and when the handler of a folder marks a file as
      processed *)
  time_time : timestamp;
  time_start : timestamp;
  time_end : timestamp;
  time_marked : string -> timestamp;
  (** [datetime.now()]: as a reading, and rendered by [strftime] *)
  datetime_now : timestamp;
  datetime_now_strftime : string
}.

(** [ArtifactRemover] ([processors/artifact_remover.py]) defines no method
    [process_full]: the call [self.artifact_remover.process_full(...)] of
    [process_file] raises this [AttributeError] whenever it is reached. *)
Definition no_process_full : string :=
  "'ArtifactRemover' object has no attribute 'process_full'".

(** The worlds that answer that call as the code of the repository does. *)
Definition faithful (w : World) : Prop :=
  forall audio intensity, process_full w audio intensity = Raises no_process_full.

(* ------------------------------------------------------------------ *)
(** ** The event handler's own state *)

Module WatchFolderHandler.

Record t : Type := mk {
  processed_files : gset string;
  last_processed : gmap string timestamp
}.

(** [__init__] *)
Definition init : t := mk ∅ ∅.

Definition supported_exts : list string :=
  [".mp3"; ".wav"; ".flac"; ".aiff"; ".m4a"; ".ogg"].

(** [_should_process(file_path)] *)
Definition _should_process (w : World) (h : t) (file_path : string) : bool :=
  if bool_decide (file_path ∈ processed_files h) then false
  else if negb (bool_decide (Str.lower (PathLib.suffix file_path) ∈ supported_exts))
  then false
  else
    let '(is_valid, error) := validate_audio_file w file_path in
    if negb is_valid then false
    else true.

(** [mark_processed(file_path)]; [at_time] is the reading of [time.time()]. *)
Definition mark_processed (at_time : timestamp) (file_path : string) (h : t) : t :=
  mk ({[ file_path ]} ∪ processed_files h)
     (<[ file_path := at_time ]> (last_processed h)).

End WatchFolderHandler.

(* ------------------------------------------------------------------ *)
(** ** Configuration, results and statistics *)

(** The keys of the configuration dictionary the code reads. *)
Record Config : Type := mkConfig {
  output_folder : string;
  max_workers : Z;
  sample_rate : Z;
  default_preset : string;
  remove_artifacts : bool;
  artifact_intensity : Q;
  separate_stems : bool;
  auto_delete_original : bool;
  backup_original : bool;
  backup_folder : string;
  max_queue_size : Z;
  log_file : string
}.

(** [default_config] of [_load_config] *)
Definition default_config : Config :=
  {| output_folder := "processed";
     max_workers := 2;
     sample_rate := 44100;
     default_preset := "spotify_ready";
     remove_artifacts := true;
     artifact_intensity := 1 # 2;
     separate_stems := false;
     auto_delete_original := false;
     backup_original := true;
     backup_folder := "backups";
     max_queue_size := 100;
     log_file := "suno_watchdog.log" |}.

(** The result dictionary of [process_file]. *)
Module Result.

Record t : Type := mk {
  task : Task;
  file_path : string;
  start_time : timestamp;
  success : bool;
  errors : list string;
  processing_time : Q;
  output_path : option string;
  metadata : option Metadata;
  backup_path : option string;
  artifacts_removed : option bool;
  mastering_preset : option string;
  original_deleted : option bool;
  end_time : option timestamp
}.

Definition append_error (msg : string) (r : t) : t :=
  mk (task r) (file_path r) (start_time r) (success r) (errors r ++ [msg])
     (processing_time r) (output_path r) (metadata r) (backup_path r)
     (artifacts_removed r) (mastering_preset r) (original_deleted r) (end_time r).

Definition set_success (b : bool) (r : t) : t :=
  mk (task r) (file_path r) (start_time r) b (errors r)
     (processing_time r) (output_path r) (metadata r) (backup_path r)
     (artifacts_removed r) (mastering_preset r) (original_deleted r) (end_time r).

Definition set_output_path (o : string) (r : t) : t :=
  mk (task r) (file_path r) (start_time r) (success r) (errors r)
     (processing_time r) (Some o) (metadata r) (backup_path r)
     (artifacts_removed r) (mastering_preset r) (original_deleted r) (end_time r).

Definition set_metadata (m : Metadata) (r : t) : t :=
  mk (task r) (file_path r) (start_time r) (success r) (errors r)
     (processing_time r) (output_path r) (Some m) (backup_path r)
     (artifacts_removed r) (mastering_preset r) (original_deleted r) (end_time r).

Definition set_backup_path (b : string) (r : t) : t :=
  mk (task r) (file_path r) (start_time r) (success r) (errors r)
     (processing_time r) (output_path r) (metadata r) (Some b)
     (artifacts_removed r) (mastering_preset r) (original_deleted r) (end_time r).

Definition set_artifacts_removed (r : t) : t :=
  mk (task r) (file_path r) (start_time r) (success r) (errors r)
     (processing_time r) (output_path r) (metadata r) (backup_path r)
     (Some true) (mastering_preset r) (original_deleted r) (end_time r).

Definition set_mastering_preset (preset : string) (r : t) : t :=
  mk (task r) (file_path r) (start_time r) (success r) (errors r)
     (processing_time r) (output_path r) (metadata r) (backup_path r)
     (artifacts_removed r) (Some preset) (original_deleted r) (end_time r).

Definition set_original_deleted (r : t) : t :=
  mk (task r) (file_path r) (start_time r) (success r) (errors r)
     (processing_time r) (output_path r) (metadata r) (backup_path r)
     (artifacts_removed r) (mastering_preset r) (Some true) (end_time r).

(** the [finally] clause *)
Definition set_times (finished : timestamp) (r : t) : t :=
  mk (task r) (file_path r) (start_time r) (success r) (errors r)
     (finished - start_time r)%Q (output_path r) (metadata r) (backup_path r)
     (artifacts_removed r) (mastering_preset r) (original_deleted r) (Some finished).

End Result.

(** [self.stats] *)
Module Stats.

Record t : Type := mk {
  processed_files : Z;
  failed_files : Z;
  total_processing_time : Q;
  start_time : option timestamp;
  last_activity : option timestamp
}.

Definition init : t := mk 0 0 0%Q None None.

End Stats.

(* ------------------------------------------------------------------ *)
(** ** The processor *)

(** What a worker does besides changing the processor: it sleeps, and it
    appends result lines to the log file. *)
Inductive Effect : Type :=
  | Slept (seconds : Q)
  | Logged (worker_id : Z) (result : Result.t)
  | LogWriteFailed (e : string).

Module WatchFolderProcessor.

Record t : Type := mk {
  config : Config;
  queue : ProcessingQueue.t;
  workers : list Z;
  handlers : gmap string WatchFolderHandler.t;
  running : bool;
  stats : Stats.t
}.

(** [__init__] *)
Definition init (cfg : Config) : t :=
  mk cfg ProcessingQueue.init [] ∅ false Stats.init.

Definition with_queue (q : ProcessingQueue.t) (p : t) : t :=
  mk (config p) q (workers p) (handlers p) (running p) (stats p).
Definition with_workers (ws : list Z) (p : t) : t :=
  mk (config p) (queue p) ws (handlers p) (running p) (stats p).
Definition with_handlers (hs : gmap string WatchFolderHandler.t) (p : t) : t :=
  mk (config p) (queue p) (workers p) hs (running p) (stats p).
Definition with_running (b : bool) (p : t) : t :=
  mk (config p) (queue p) (workers p) (handlers p) b (stats p).
Definition with_stats (s : Stats.t) (p : t) : t :=
  mk (config p) (queue p) (workers p) (handlers p) (running p) s.

(** [add_watch_folder(folder_path)]: the folder and its output and backup
    subfolders are created, then a fresh handler is registered for it. *)
Definition add_watch_folder (w : World) (folder : string) (p : t) : outcome t :=
  match ensure_directory w folder with
  | Raises e => Raises e
  | Returns _ =>
      match ensure_directory w (PathLib.join folder (output_folder (config p))) with
      | Raises e => Raises e
      | Returns _ =>
          let registered :=
            with_handlers (<[ folder := WatchFolderHandler.init ]> (handlers p)) p in
          if backup_original (config p) then
            match ensure_directory w (PathLib.join folder (backup_folder (config p))) with
            | Raises e => Raises e
            | Returns _ => Returns registered
            end
          else Returns registered
      end
  end.

Definition priority_map : gmap string Z :=
  {[ "high" := 0; "medium" := 1; "low" := 2 ]}.

(** [priority_map.get(priority.lower(), 1)] *)
Definition priority_value (priority : string) : Z :=
  default 1 (priority_map !! Str.lower priority).

(** [enqueue_file(file_path, priority)]; the answer is the returned
    boolean together with the processor afterwards. *)
Definition enqueue_file (w : World) (file_path : string) (priority : string)
    (p : t) : bool * t :=
  let priority_value := priority_value priority in
  if ProcessingQueue.size (queue p) >=? max_queue_size (config p) then (false, p)
  else
    (true,
     with_queue
       (ProcessingQueue.enqueue
          {| file_path := file_path;
             priority := priority;
             enqueued_time := datetime_now w;
             status := "queued" |}
          priority_value (queue p)) p).

(** *** The body of [process_file]

    The statements inside [try] change the result dictionary and the
    handlers as they go, and any of them may raise: a computation takes
    the two and returns them together with a value or an exception. *)
Definition Try (A : Type) : Type :=
  Result.t * gmap string WatchFolderHandler.t ->
  outcome A * (Result.t * gmap string WatchFolderHandler.t).

Definition ret {A} (a : A) : Try A := fun s => (Returns a, s).

Definition bind {A B} (c : Try A) (k : A -> Try B) : Try B :=
  fun s =>
    match c s with
    | (Returns a, s') => k a s'
    | (Raises e, s') => (Raises e, s')
    end.

(** a library call *)
Definition call {A} (o : outcome A) : Try A := fun s => (o, s).

(** an assignment to a key of [result] *)
Definition update (f : Result.t -> Result.t) : Try unit :=
  fun s => (Returns tt, (f (fst s), snd s)).

(** [for handler in self.handlers.values(): handler.mark_processed(file_path)] *)
Definition mark_handlers (w : World) (file_path : string) : Try unit :=
  fun s =>
    (Returns tt,
     (fst s,
      map_imap
        (fun folder h =>
           Some (WatchFolderHandler.mark_processed (time_marked w folder) file_path h))
        (snd s))).

#[local] Instance try_ret : MRet Try := @ret.
#[local] Instance try_bind : MBind Try := fun A B k c => bind c k.

(** [_get_processing_settings(metadata)] *)
Definition _get_processing_settings (cfg : Config) (metadata : Metadata)
    : bool * Q * string * bool :=
  (remove_artifacts cfg, artifact_intensity cfg, default_preset cfg, separate_stems cfg).

Definition try_body (w : World) (cfg : Config) (file_path : string) : Try unit :=
  (let '(is_valid, error) := validate_audio_file w file_path in
   if negb is_valid then
     update (Result.append_error (String.append "Validation failed: " error))
   else
     let metadata := analyze_audio_metadata w file_path in
     update (Result.set_metadata metadata) ;;
     let settings := _get_processing_settings cfg metadata in
     let output_dir := PathLib.join (PathLib.parent file_path) (output_folder cfg) in
     call (ensure_directory w output_dir) ;;
     let output_file :=
       PathLib.join output_dir
         (String.append "processed_"
            (String.append (PathLib.stem file_path)
               (String.append "_"
                  (String.append (datetime_now_strftime w) (PathLib.suffix file_path))))) in
     (if backup_original cfg then
        let backup_dir := PathLib.join (PathLib.parent file_path) (backup_folder cfg) in
        call (ensure_directory w backup_dir) ;;
        let backup_file :=
          PathLib.join backup_dir (String.append "original_" (PathLib.name file_path)) in
        call (copy2 w file_path backup_file) ;;
        update (Result.set_backup_path backup_file)
      else ret tt) ;;
     '(audio, sr) ← call (librosa_load w file_path (sample_rate cfg));
     audio ← (if remove_artifacts cfg then
                 cleaned ← call (process_full w audio (artifact_intensity cfg));
                 update Result.set_artifacts_removed ;;
                 ret cleaned
               else ret audio);
     let preset := default_preset cfg in
     audio ← call (master_track w audio preset);
     update (Result.set_mastering_preset preset) ;;
     (if ndim audio =? 2
      then call (sf_write w output_file (T audio) sr)
      else call (sf_write w output_file audio sr)) ;;
     update (Result.set_success true) ;;
     update (Result.set_output_path output_file) ;;
     mark_handlers w file_path ;;
     (if auto_delete_original cfg then
        call (unlink w file_path) ;;
        update Result.set_original_deleted
      else ret tt)).

(** [process_file(task)]: the result dictionary, and the processor with
    the handlers as the call left them. *)
Definition process_file (w : World) (task : Task) (p : t) : Result.t * t :=
  let file_path := file_path task in
  let start_time := time_start w in
  let result :=
    Result.mk task file_path start_time false [] 0%Q None None None None None None None in
  let '(o, (result, hs)) := try_body w (config p) file_path (result, handlers p) in
  let result :=
    match o with
    | Returns _ => result
    | Raises e => Result.append_error e result       (* except Exception as e *)
    end in
  let result := Result.set_times (time_end w) result in   (* finally *)
  (result, with_handlers hs p).

(** *** The worker loop *)

(** The statistics update of one completed task. *)
Definition record_result (w : World) (result : Result.t) (s : Stats.t) : Stats.t :=
  let processed := Stats.processed_files s + 1 in
  let total := (Stats.total_processing_time s + Result.processing_time result)%Q in
  let last := Some (datetime_now w) in
  let failed :=
    if negb (Result.success result) then Stats.failed_files s + 1
    else Stats.failed_files s in
  Stats.mk processed failed total (Stats.start_time s) last.

(** [_log_result(result, worker_id)]: the directory of the log file is
    ensured outside the [try]; a failure to write the line is caught. *)
Definition _log_result (w : World) (result : Result.t) (worker_id : Z) (p : t)
    : outcome (list Effect) :=
  match ensure_directory w (PathLib.parent (log_file (config p))) with
  | Raises e => Raises e
  | Returns _ =>
      match write_log_line w (log_file (config p)) with
      | Returns _ => Returns [Logged worker_id result]
      | Raises e => Returns [LogWriteFailed e]
      end
  end.

(** One pass through the body of [while self.running]: the processor
    afterwards, the exception that left the body if one did, and what the
    worker did besides. *)
Record Pass : Type := mkPass {
  after : t;
  escaped : option string;
  effects : list Effect
}.

Definition _worker_pass (w : World) (worker_id : Z) (p : t) : Pass :=
  match ProcessingQueue.dequeue (queue p) with
  | (None, _) =>
      (* queue is empty: time.sleep(0.5); continue *)
      mkPass p None [Slept (1 # 2)]
  | (Some task, q') =>
      let '(result, p1) := process_file w task (with_queue q' p) in
      let p2 := with_stats (record_result w result (stats p1)) p1 in
      match _log_result w result worker_id p2 with
      | Returns eff => mkPass p2 None eff
      | Raises e => mkPass p2 (Some e) []
      end
  end.

(** [_worker_loop(worker_id)], one world per pass; the loop is observed
    for as many passes as there are worlds. *)
Fixpoint _worker_loop (ws : list World) (worker_id : Z) (p : t) : Pass :=
  match ws with
  | [] => mkPass p None []
  | w :: ws' =>
      if running p then
        let pass := _worker_pass w worker_id p in
        match escaped pass with
        | Some e => pass
        | None =>
            let rest := _worker_loop ws' worker_id (after pass) in
            mkPass (after rest) (escaped rest) (effects pass ++ effects rest)
        end
      else mkPass p None []
  end.

(** [start_workers()] and [stop_workers()] *)
Definition start_workers (p : t) : t :=
  with_workers (workers p ++ seqZ 0 (max_workers (config p))) (with_running true p).

Definition stop_workers (p : t) : t := with_running false p.

(** The dictionary returned by [get_stats()]: a copy of [self.stats] and
    the keys added to it. *)
Record Snapshot : Type := mkSnapshot {
  copied : Stats.t;
  queue_size : Z;
  worker_count : Z;
  active_workers : Z;
  watch_folders : list string;
  avg_processing_time : Q
}.

Definition processed (s : Snapshot) : Z := Stats.processed_files (copied s).
Definition failed (s : Snapshot) : Z := Stats.failed_files (copied s).

(** [get_stats()]; [is_alive] tells which worker threads are alive. *)
Definition get_stats (is_alive : Z -> bool) (p : t) : Snapshot :=
  let stats := stats p in
  mkSnapshot stats
    (ProcessingQueue.size (queue p))
    (Z.of_nat (length (workers p)))
    (Z.of_nat (length (filter (fun w => is_alive w = true) (workers p))))
    (map fst (map_to_list (handlers p)))
    (if Stats.processed_files stats >? 0
     then (Stats.total_processing_time stats / inject_Z (Stats.processed_files stats))%Q
     else 0%Q).

End WatchFolderProcessor.

(* ------------------------------------------------------------------ *)
(** ** File-system events *)

Record Event : Type := mkEvent {
  is_directory : bool;
  src_path : string
}.

Module WatchFolderEvents.

Import WatchFolderProcessor.

(** [a > b] on clock readings *)
Definition Qgtb (a b : Q) : bool := negb (Qle_bool a b).

(** [on_created(event)] of the handler [h], whose processor is [p]. *)
Definition on_created (w : World) (h : WatchFolderHandler.t) (event : Event)
    (p : t) : t :=
  if is_directory event then p
  else
    let file_path := src_path event in
    if WatchFolderHandler._should_process w h file_path
    then snd (enqueue_file w file_path "high" p)
    else p.

(** [on_modified(event)] of the handler [h], whose processor is [p]. *)
Definition on_modified (w : World) (h : WatchFolderHandler.t) (event : Event)
    (p : t) : t :=
  if is_directory event then p
  else
    let file_path := src_path event in
    if WatchFolderHandler._should_process w h file_path
    then
      let last_time := default 0%Q (WatchFolderHandler.last_processed h !! file_path) in
      if Qgtb (time_time w - last_time)%Q 60%Q
      then snd (enqueue_file w file_path "medium" p)
      else p
    else p.

Inductive Kind : Type := Created | Modified.

(** The observer delivers an event under a watched folder to the handler
    scheduled for that folder. *)
Definition deliver (w : World) (folder : string) (kind : Kind) (event : Event)
    (p : t) : t :=
  match handlers p !! folder with
  | None => p
  | Some h =>
      match kind with
      | Created => on_created w h event p
      | Modified => on_modified w h event p
      end
  end.

End WatchFolderEvents.

(* ------------------------------------------------------------------ *)
(** ** Runs of the system

    The processor is shared by the event-delivery thread, the callers of
    [enqueue_file] and the workers.  A run interleaves their actions; each
    action below is taken as one step: a worker pass is not interleaved
    with other actions, and neither are the test of the size and the put of
    a call of [enqueue_file], between which the code holds no lock (the
    module [Concurrent] below takes the two apart). *)

Inductive Action : Type :=
  | AddWatchFolder (w : World) (folder : string)
  | EnqueueFile (w : World) (file_path priority : string)
  | Deliver (w : World) (folder : string) (kind : WatchFolderEvents.Kind) (event : Event)
  | StartWorkers
  | StopWorkers
  | WorkerPass (w : World) (worker_id : Z).

(** The processor after an action; [None] when the action cannot happen (a
    worker makes no pass once [running] is false). *)
Definition perform (a : Action) (p : WatchFolderProcessor.t)
    : option WatchFolderProcessor.t :=
  match a with
  | AddWatchFolder w folder =>
      match WatchFolderProcessor.add_watch_folder w folder p with
      | Returns p' => Some p'
      | Raises _ => Some p
      end
  | EnqueueFile w file_path priority =>
      Some (snd (WatchFolderProcessor.enqueue_file w file_path priority p))
  | Deliver w folder kind event =>
      Some (WatchFolderEvents.deliver w folder kind event p)
  | StartWorkers => Some (WatchFolderProcessor.start_workers p)
  | StopWorkers => Some (WatchFolderProcessor.stop_workers p)
  | WorkerPass w worker_id =>
      if WatchFolderProcessor.running p
      then Some (WatchFolderProcessor.after (WatchFolderProcessor._worker_pass w worker_id p))
      else None
  end.

Fixpoint run (acts : list Action) (p : WatchFolderProcessor.t)
    : option WatchFolderProcessor.t :=
  match acts with
  | [] => Some p
  | a :: rest =>
      match perform a p with
      | Some p' => run rest p'
      | None => None
      end
  end.

(** The states a run can reach from a freshly built processor. *)
Definition reachable (cfg : Config) (p : WatchFolderProcessor.t) : Prop :=
  exists acts, run acts (WatchFolderProcessor.init cfg) = Some p.

(** The result of the task a worker pass completes, if it completes one. *)
Definition completed (a : Action) (p : WatchFolderProcessor.t) : option Result.t :=
  match a with
  | WorkerPass w worker_id =>
      match ProcessingQueue.dequeue (WatchFolderProcessor.queue p) with
      | (Some task, q') =>
          Some (fst (WatchFolderProcessor.process_file w task
                       (WatchFolderProcessor.with_queue q' p)))
      | (None, _) => None
      end
  | _ => None
  end.

(** The results of all the tasks completed during a run, latest last. *)
Fixpoint results (acts : list Action) (p : WatchFolderProcessor.t) : list Result.t :=
  match acts with
  | [] => []
  | a :: rest =>
      match perform a p with
      | Some p' =>
          match completed a p with
          | Some r => r :: results rest p'
          | None => results rest p'
          end
      | None => []
      end
  end.

(* ------------------------------------------------------------------ *)
(** ** Callers of [enqueue_file] that overlap

    [enqueue_file] holds no lock between its test of the size of the queue
    and its call of [enqueue]: the two are steps of their own, and the steps
    of callers on different threads (the observer's thread, the thread of a
    scan, any other caller) may alternate. *)

Module Concurrent.

Import WatchFolderProcessor.

(** [self.queue.size() >= self.config['max_queue_size']] *)
Definition queue_full (p : t) : bool :=
  ProcessingQueue.size (queue p) >=? max_queue_size (config p).

(** [self.queue.enqueue({...}, priority_value)] *)
Definition put_task (w : World) (file_path priority : string) (p : t) : t :=
  with_queue
    (ProcessingQueue.enqueue
       {| file_path := file_path;
          priority := priority;
          enqueued_time := datetime_now w;
          status := "queued" |}
       (priority_value priority) (queue p)) p.

(** A call [enqueue_file(file_path, priority)] *)
Record Call : Type := mkCall {
  call_world : World;
  call_path : string;
  call_priority : string
}.

(** Where a caller stands: before the test, after a test that found room,
    or answered. *)
Inductive Stage : Type :=
  | Start
  | SawRoom
  | Answered (accepted : bool).

#[global] Instance stage_eq_dec : EqDecision Stage.
Proof. solve_decision. Defined.

Record State : Type := mkState {
  processor : t;
  stages : list Stage
}.

(** Caller [i] takes its next step. *)
Definition step (calls : list Call) (i : nat) (s : State) : State :=
  match calls !! i, stages s !! i with
  | Some c, Some Start =>
      if queue_full (processor s)
      then mkState (processor s) (<[ i := Answered false ]> (stages s))
      else mkState (processor s) (<[ i := SawRoom ]> (stages s))
  | Some c, Some SawRoom =>
      mkState (put_task (call_world c) (call_path c) (call_priority c) (processor s))
        (<[ i := Answered true ]> (stages s))
  | _, _ => s
  end.

(** The callers take their steps in the given order. *)
Definition schedule (calls : list Call) (order : list nat) (s : State) : State :=
  fold_left (fun s i => step calls i s) order s.

Definition start (calls : list Call) (p : t) : State :=
  mkState p (replicate (length calls) Start).

(** The callers that have seen room and not yet put their task. *)
Definition admitted (stages : list Stage) : nat :=
  length (filter (fun st => st = SawRoom) stages).

End Concurrent.

(* ------------------------------------------------------------------ *)
(** ** Sorting by (priority, sequence number): the reference order *)

Module Order.

Import ProcessingQueue.

(** The key of an entry: its numeric priority and its sequence number. *)
Definition key (e : entry) : Z * Z := (entry_priority e, entry_id e).

(** [a] is not after [b] in the order of the pairs. *)
Definition key_le (a b : entry) : Prop :=
  entry_priority a < entry_priority b
  \/ (entry_priority a = entry_priority b /\ entry_id a <= entry_id b).

Definition key_leb (a b : entry) : bool :=
  (entry_priority a <? entry_priority b)
  || ((entry_priority a =? entry_priority b) && (entry_id a <=? entry_id b)).

(** A stable sort by the key: every element is put before the first
    element of the sorted rest that is not before it. *)
Fixpoint insert (x : entry) (l : list entry) : list entry :=
  match l with
  | [] => [x]
  | y :: l' => if key_leb x y then x :: y :: l' else y :: insert x l'
  end.

Fixpoint stable_sort (l : list entry) : list entry :=
  match l with
  | [] => []
  | x :: l' => insert x (stable_sort l')
  end.

(** The entries of a queue in the order [dequeue] releases them. *)
Fixpoint release (fuel : nat) (h : list entry) : list entry :=
  match fuel with
  | O => []
  | S fuel' =>
      match get_nowait h with
      | Some (m, rest) => m :: release fuel' rest
      | None => []
      end
  end.

End Order.

(* ------------------------------------------------------------------ *)
(** ** Sequences of enqueue operations *)

(** The three priorities callers name, their spelling and their rank. *)
Inductive Priority : Type := High | Medium | Low.

Definition priority_name (pr : Priority) : string :=
  match pr with
  | High => "high"
  | Medium => "medium"
  | Low => "low"
  end.

Definition priority_number (pr : Priority) : Z :=
  match pr with
  | High => 0
  | Medium => 1
  | Low => 2
  end.

(** One call [enqueue_file(path, priority)], made in a given world. *)
Definition request : Type := World * string * Priority.

Definition request_task (r : request) : Task :=
  let '(w, path, pr) := r in
  {| file_path := path;
     priority := priority_name pr;
     enqueued_time := datetime_now w;
     status := "queued" |}.

(** The calls of a sequence, one after the other. *)
Fixpoint enqueue_files (reqs : list request) (p : WatchFolderProcessor.t)
    : WatchFolderProcessor.t :=
  match reqs with
  | [] => p
  | (w, path, pr) :: rest =>
      enqueue_files rest
        (snd (WatchFolderProcessor.enqueue_file w path (priority_name pr) p))
  end.

(** The requests of a sequence that [enqueue_file] accepts (answers [True]
    to); a request made when the queue is full is refused. *)
Fixpoint accepted (reqs : list request) (p : WatchFolderProcessor.t) : list request :=
  match reqs with
  | [] => []
  | (w, path, pr) :: rest =>
      let '(ok, p') := WatchFolderProcessor.enqueue_file w path (priority_name pr) p in
      if ok then (w, path, pr) :: accepted rest p' else accepted rest p'
  end.

(** The tasks of a sequence of requests with the key the claim gives them:
    the rank of the priority and a sequence number that grows by one with
    each request, counting on from [seq]. *)
Fixpoint numbered (seq : Z) (reqs : list request) : list ProcessingQueue.entry :=
  match reqs with
  | [] => []
  | r :: rest => (priority_number (snd r), seq + 1, request_task r) :: numbered (seq + 1) rest
  end.

(** Two entries stand for each other when they carry the same key and
    the same file. *)
Definition alike (a b : ProcessingQueue.entry) : Prop :=
  Order.key a = Order.key b
  /\ file_path (ProcessingQueue.entry_item a) = file_path (ProcessingQueue.entry_item b).


(* ------------------------------------------------------------------ *)
(** ** Observations on a processor *)

(** No two entries of a queue carry the same sequence number, and none is
    above the counter of the queue. *)
Definition fresh_ids (q : ProcessingQueue.t) : Prop :=
  NoDup (map ProcessingQueue.entry_id (ProcessingQueue.queue q))
  /\ Forall (fun e => ProcessingQueue.entry_id e <= ProcessingQueue.task_id q)
       (ProcessingQueue.queue q).

(** The unsuccessful results among the results of a run. *)
Definition failures (rs : list Result.t) : list Result.t :=
  filter (fun r => Result.success r = false) rs.

(** The number of tasks queued for a path. *)
Definition queued_for (path : string) (p : WatchFolderProcessor.t) : nat :=
  length
    (filter (fun e => file_path (ProcessingQueue.entry_item e) = path)
       (ProcessingQueue.queue (WatchFolderProcessor.queue p))).

(** [p'] is [p] with one more task queued, for [path], at the numeric
    priority [n]. *)
Definition enqueued_at (n : Z) (path : string) (p p' : WatchFolderProcessor.t) : Prop :=
  exists item,
    file_path item = path
    /\ WatchFolderProcessor.queue p'
       = ProcessingQueue.enqueue item n (WatchFolderProcessor.queue p).

(** The handler of a folder has a path on record as processed at a time. *)
Definition processed_at (folder path : string) (at_time : timestamp)
    (p : WatchFolderProcessor.t) : Prop :=
  exists h,
    WatchFolderProcessor.handlers p !! folder = Some h
    /\ path ∈ WatchFolderHandler.processed_files h
    /\ WatchFolderHandler.last_processed h !! path = Some at_time.

(** The handlers once every one of them has marked [path]. *)
Definition marked (w : World) (path : string) (hs : gmap string WatchFolderHandler.t)
    : gmap string WatchFolderHandler.t :=
  map_imap
    (fun folder h =>
       Some (WatchFolderHandler.mark_processed (time_marked w folder) path h))
    hs.

(** Every path a handler has a time of processing for is among its
    processed files. *)
Definition on_record (h : WatchFolderHandler.t) : Prop :=
  forall path,
    is_Some (WatchFolderHandler.last_processed h !! path) ->
    path ∈ WatchFolderHandler.processed_files h.

(** The extension of a path is one the handler supports. *)
Definition supported (path : string) : Prop :=
  Str.lower (PathLib.suffix path) ∈ WatchFolderHandler.supported_exts.

(* ------------------------------------------------------------------ *)
(** ** Concrete worlds and configurations *)

Module Sample.

Definition stereo : Audio := mkAudio 2 false [].

(** A world read at the time [at_time] in which every file is valid; the
    load of the signal and the removal of the original answer as given, the
    removal of artifacts raises as it does in the code, and all other calls
    return. *)
Definition world (at_time : timestamp) (load : outcome (Audio * Z))
    (removal : outcome unit) : World :=
  {| validate_audio_file := fun _ => (true, "File is valid");
     analyze_audio_metadata := fun _ => ∅;
     ensure_directory := fun _ => Returns tt;
     copy2 := fun _ _ => Returns tt;
     librosa_load := fun _ _ => load;
     process_full := fun _ _ => Raises no_process_full;
     master_track := fun a _ => Returns a;
     sf_write := fun _ _ _ => Returns tt;
     unlink := fun _ => removal;
     write_log_line := fun _ => Returns tt;
     time_time := at_time;
     time_start := at_time;
     time_end := at_time;
     time_marked := fun _ => at_time;
     datetime_now := at_time;
     datetime_now_strftime := "20240101_120000" |}.

Definition calm (at_time : timestamp) : World :=
  world at_time (Returns (stereo, 44100)) (Returns tt).

(** The default configuration with a given capacity and choice of deleting
    the originals. *)
Definition cfg (capacity : Z) (delete : bool) : Config :=
  {| output_folder := output_folder default_config;
     max_workers := max_workers default_config;
     sample_rate := sample_rate default_config;
     default_preset := default_preset default_config;
     remove_artifacts := remove_artifacts default_config;
     artifact_intensity := artifact_intensity default_config;
     separate_stems := separate_stems default_config;
     auto_delete_original := delete;
     backup_original := backup_original default_config;
     backup_folder := backup_folder default_config;
     max_queue_size := capacity;
     log_file := log_file default_config |}.

(** The same with [remove_artifacts] switched off: the configurations
    under which a file can be processed with success. *)
Definition plain (capacity : Z) (delete : bool) : Config :=
  {| output_folder := output_folder default_config;
     max_workers := max_workers default_config;
     sample_rate := sample_rate default_config;
     default_preset := default_preset default_config;
     remove_artifacts := false;
     artifact_intensity := artifact_intensity default_config;
     separate_stems := separate_stems default_config;
     auto_delete_original := delete;
     backup_original := backup_original default_config;
     backup_folder := backup_folder default_config;
     max_queue_size := capacity;
     log_file := log_file default_config |}.

Definition song : string := "in/song.wav".

Definition song_task : Task :=
  {| file_path := song; priority := "high"; enqueued_time := 0%Q; status := "queued" |}.

Definition song_event : Event := mkEvent false song.

(** The folder "in" is watched, the workers run, the song is enqueued and a
    worker processes it, all at time 0. *)
Definition song_processed : list Action :=
  [ AddWatchFolder (calm 0%Q) "in";
    StartWorkers;
    EnqueueFile (calm 0%Q) song "high";
    WorkerPass (calm 0%Q) 0 ].

(** The song is enqueued, the workers run, no pass has been made yet. *)
Definition song_queued : list Action :=
  [ AddWatchFolder (calm 0%Q) "in";
    StartWorkers;
    EnqueueFile (calm 0%Q) song "high" ].

(** A world in which the file has vanished when it is to be loaded. *)
Definition file_gone : World :=
  world 0%Q (Raises "[Errno 2] No such file or directory") (Returns tt).

(** A world in which the original cannot be removed. *)
Definition removal_denied : World :=
  world 0%Q (Returns (stereo, 44100)) (Raises "[Errno 13] Permission denied").

Definition requests : list request :=
  [ (calm 0%Q, "a.wav", Medium);
    (calm 1%Q, "b.wav", Low);
    (calm 2%Q, "c.wav", High);
    (calm 3%Q, "d.wav", Medium) ].

End Sample.

(* ------------------------------------------------------------------ *)
(** ** The tasks a run submits *)

(** The call of [enqueue_file] an event leads to, if it leads to one: the
    path and the priority the handler passes ([on_created] and
    [on_modified], delivered as [deliver] does). *)
Definition handler_call (w : World) (folder : string) (kind : WatchFolderEvents.Kind)
    (event : Event) (p : WatchFolderProcessor.t) : option (string * string) :=
  match WatchFolderProcessor.handlers p !! folder with
  | None => None
  | Some h =>
      if is_directory event then None
      else if WatchFolderHandler._should_process w h (src_path event) then
        match kind with
        | WatchFolderEvents.Created => Some (src_path event, "high")
        | WatchFolderEvents.Modified =>
            let last_time :=
              default 0%Q (WatchFolderHandler.last_processed h !! src_path event) in
            if WatchFolderEvents.Qgtb (time_time w - last_time)%Q 60%Q
            then Some (src_path event, "medium")
            else None
        end
      else None
  end.

(** The task of a call [enqueue_file(file_path, priority)] if the call is
    answered [True], and nothing if it is answered [False]. *)
Definition answered_true (w : World) (file_path priority : string)
    (p : WatchFolderProcessor.t) : list Task :=
  if fst (WatchFolderProcessor.enqueue_file w file_path priority p)
  then [ {| file_path := file_path;
            priority := priority;
            enqueued_time := datetime_now w;
            status := "queued" |} ]
  else [].

(** The tasks an action submits: those of the calls of [enqueue_file],
    made directly or by the event handler, that were answered [True]. *)
Definition submitted (a : Action) (p : WatchFolderProcessor.t) : list Task :=
  match a with
  | EnqueueFile w file_path priority => answered_true w file_path priority p
  | Deliver w folder kind event =>
      match handler_call w folder kind event p with
      | Some (file_path, priority) => answered_true w file_path priority p
      | None => []
      end
  | _ => []
  end.


(** The actions whose world answers as the code does. *)
Definition faithful_action (a : Action) : Prop :=
  match a with
  | WorkerPass w _ => faithful w
  | _ => True
  end.

(** The tasks submitted during a run, earliest first. *)
Fixpoint all_submitted (acts : list Action) (p : WatchFolderProcessor.t) : list Task :=
  match acts with
  | [] => []
  | a :: rest =>
      match perform a p with
      | Some p' => (submitted a p ++ all_submitted rest p')%list
      | None => []
      end
  end.

(** Every entry of a queue has one of the numeric priorities 0, 1, 2. *)
Definition ranked (q : ProcessingQueue.t) : Prop :=
  Forall (fun e => 0 <= ProcessingQueue.entry_priority e <= 2) (ProcessingQueue.queue q).

(* ------------------------------------------------------------------ *)
(** ** Scanning the watched folders for files that are already there *)

(** What the file system shows to [process_existing_files]: whether a
    folder exists, and the audio files [find_audio_files] lists under it. *)
Record Folders : Type := mkFolders {
  folder_exists : string -> bool;
  find_audio_files : string -> list string
}.

Module ExistingFiles.

Import WatchFolderProcessor.

(** [for file_path in audio_files: self.enqueue_file(file_path, priority='low')] *)
Fixpoint enqueue_low (w : World) (audio_files : list string) (p : t) : t :=
  match audio_files with
  | [] => p
  | file_path :: rest => enqueue_low w rest (snd (enqueue_file w file_path "low" p))
  end.

(** [for folder in folders_to_process: ...]: a folder that does not exist is
    passed over. *)
Fixpoint scan (fs : Folders) (w : World) (folders_to_process : list string) (p : t) : t :=
  match folders_to_process with
  | [] => p
  | folder :: rest =>
      if negb (folder_exists fs folder) then scan fs w rest p
      else scan fs w rest (enqueue_low w (find_audio_files fs folder) p)
  end.

(** [process_existing_files(folder_path)]: the given folder or, when none
    is given (or the empty text), every watched folder; the watched folders
    are taken in the order of the map, which need not be the order in which
    they were added.  The clock is read as one world [w] for the whole call. *)
Definition process_existing_files (fs : Folders) (w : World)
    (folder_path : option string) (p : t) : t :=
  let watched := map fst (map_to_list (handlers p)) in
  let folders_to_process :=
    match folder_path with
    | Some "" => watched
    | Some folder => [folder]
    | None => watched
    end in
  scan fs w folders_to_process p.



(** The task [enqueue_file] builds for an existing file. *)
Definition low_task (w : World) (file_path : string) : Task :=
  {| file_path := file_path;
     priority := "low";
     enqueued_time := datetime_now w;
     status := "queued" |}.

End ExistingFiles.

(* ------------------------------------------------------------------ *)
(** ** The file utilities ([utils/file_manager.py]) *)

Module FileManager.

(** [get_supported_formats()] *)
Definition get_supported_formats : list string :=
  [".mp3"; ".wav"; ".flac"; ".aiff"; ".aif"; ".m4a"; ".ogg"; ".opus"].

(** [is_audio_file(file_path)] *)
Definition is_audio_file (file_path : string) : bool :=
  bool_decide (Str.lower (PathLib.suffix file_path) ∈ get_supported_formats).

(** An entry of a hash tree, as [get_file_hash_tree] builds it. *)
Record HashEntry : Type := mkHashEntry {
  hash : string;
  size : Z;
  modified : Q
}.

(** The dictionary [compare_hash_trees] returns.  Its values are lists
    made from sets, in no particular order: they are kept as sets. *)
Record Changes : Type := mkChanges {
  added : gset string;
  changed : gset string;
  removed : gset string;
  unchanged : gset string
}.

(** The test on a common file: the hashes or the sizes differ. *)
Definition differs (old_tree new_tree : gmap string HashEntry) (file_path : string) : bool :=
  match old_tree !! file_path, new_tree !! file_path with
  | Some o, Some n =>
      negb (String.eqb (hash o) (hash n)) || negb (size o =? size n)
  | _, _ => false
  end.

(** [compare_hash_trees(old_tree, new_tree)]; [changed] is the key
    "modified" of the result. *)
Definition compare_hash_trees (old_tree new_tree : gmap string HashEntry) : Changes :=
  let old_files : gset string := dom old_tree in
  let new_files : gset string := dom new_tree in
  let added := new_files ∖ old_files in
  let removed := old_files ∖ new_files in
  let common_files := old_files ∩ new_files in
  let modified :=
    filter (fun file_path => differs old_tree new_tree file_path = true) common_files in
  mkChanges added modified removed (common_files ∖ modified).

(** What [cleanup_old_backups] meets in the backup directory: whether it
    exists, the files [glob("*")] lists, and for each file the answer of
    [stat().st_mtime] and of [unlink()]. *)
Record BackupDir : Type := mkBackupDir {
  dir_exists : bool;
  glob_all : list string;
  st_mtime : string -> outcome Q;
  unlink_file : string -> outcome unit
}.

(** Not older than: the order [sorted(..., reverse=True)] puts the files in. *)
Definition not_older (a b : string * Q) : Prop := (snd b <= snd a)%Q.

(** Python's [l[k:]]: a negative [k] counts from the end. *)
Definition slice_from {A : Type} (k : Z) (l : list A) : list A :=
  if 0 <=? k then drop (Z.to_nat k) l
  else drop (Z.to_nat (Z.of_nat (length l) + k)) l.

(** The key of every file, as [sorted] computes them before it orders the
    files; the first exception ends the computation. *)
Fixpoint keyed (d : BackupDir) (files : list string) : outcome (list (string * Q)) :=
  match files with
  | [] => Returns []
  | f :: rest =>
      match st_mtime d f with
      | Raises e => Raises e
      | Returns t =>
          match keyed d rest with
          | Raises e => Raises e
          | Returns l => Returns ((f, t) :: l)
          end
      end
  end.

(** [sorted(..., key=mtime, reverse=True)]: newest first, files of equal
    time in the order they had (the sort is stable). *)
Fixpoint insert_newest (x : string * Q) (l : list (string * Q)) : list (string * Q) :=
  match l with
  | [] => [x]
  | y :: l' => if Qle_bool (snd y) (snd x) then x :: y :: l' else y :: insert_newest x l'
  end.

Fixpoint newest_first (l : list (string * Q)) : list (string * Q) :=
  match l with
  | [] => []
  | x :: l' => insert_newest x (newest_first l')
  end.

(** The loop over [files_to_delete]: the files whose [unlink] returned. *)
Fixpoint unlink_each (d : BackupDir) (files : list string) : list string :=
  match files with
  | [] => []
  | f :: rest =>
      match unlink_file d f with
      | Returns _ => f :: unlink_each d rest
      | Raises _ => unlink_each d rest
      end
  end.

(** [cleanup_old_backups(backup_dir, keep_last_n)]: the number returned,
    and the files removed from the directory. *)
Definition cleanup_old_backups (d : BackupDir) (keep_last_n : Z) : Z * list string :=
  if negb (dir_exists d) then (0, [])
  else
    match keyed d (glob_all d) with
    | Raises _ => (0, [])                     (* except Exception: return 0 *)
    | Returns with_times =>
        let backup_files := map fst (newest_first with_times) in
        let files_to_delete := slice_from keep_last_n backup_files in
        let deleted := unlink_each d files_to_delete in
        (Z.of_nat (length deleted), deleted)
    end.

End FileManager.

(* ------------------------------------------------------------------ *)
(** ** Loading the configuration ([_load_config]) *)

Module ConfigFile.

(** The values of a JSON document. *)
#[warnings="-register-all"]
Inductive Json : Type :=
  | JNull
  | JBool (b : bool)
  | JNumber (q : Q)
  | JString (s : string)
  | JArray (items : list Json)
  | JObject (members : list (string * Json)).

(** [default_config], as the dictionary it is. *)
Definition default_config : gmap string Json :=
  list_to_map
    [ ("watch_folders", JArray []);
      ("output_folder", JString "processed");
      ("max_workers", JNumber 2);
      ("sample_rate", JNumber 44100);
      ("default_preset", JString "spotify_ready");
      ("remove_artifacts", JBool true);
      ("artifact_intensity", JNumber (1 # 2));
      ("separate_stems", JBool false);
      ("auto_delete_original", JBool false);
      ("backup_original", JBool true);
      ("backup_folder", JString "backups");
      ("max_queue_size", JNumber 100);
      ("log_level", JString "INFO");
      ("log_file", JString "suno_watchdog.log");
      ("notifications",
       JObject [("enable", JBool false); ("webhook_url", JNull); ("email", JNull)]) ].

(** [_load_config(config_path)].  [path_exists] answers
    [Path(config_path).exists()]; [loaded] is what opening the file and
    [json.load] give: the members of the JSON object the file holds, or an
    exception.  [default_config.update(user_config)] lets the user's members
    replace the defaults of the same name. *)
Definition _load_config (config_path : option string) (path_exists : bool)
    (loaded : outcome (gmap string Json)) : gmap string Json :=
  match config_path with
  | None | Some "" => default_config
  | Some _ =>
      if path_exists then
        match loaded with
        | Returns user_config => user_config ∪ default_config
        | Raises _ => default_config
        end
      else default_config
  end.

End ConfigFile.

(* ------------------------------------------------------------------ *)
(** ** Further concrete inputs *)

Module Example.

(** A processor whose workers run and whose queue holds the song. *)
Definition ready : WatchFolderProcessor.t :=
  snd (WatchFolderProcessor.enqueue_file (Sample.calm 0%Q) Sample.song "high"
         (WatchFolderProcessor.start_workers (WatchFolderProcessor.init default_config))).

Definition ready_acts : list Action :=
  [StartWorkers; EnqueueFile (Sample.calm 0%Q) Sample.song "high"].

(** A world in which the directory of the log file cannot be created. *)
Definition log_denied : World :=
  {| validate_audio_file := validate_audio_file (Sample.calm 0%Q);
     analyze_audio_metadata := analyze_audio_metadata (Sample.calm 0%Q);
     ensure_directory :=
       fun d => if String.eqb d "." then Raises "[Errno 13] Permission denied"
                else Returns tt;
     copy2 := copy2 (Sample.calm 0%Q);
     librosa_load := librosa_load (Sample.calm 0%Q);
     process_full := process_full (Sample.calm 0%Q);
     master_track := master_track (Sample.calm 0%Q);
     sf_write := sf_write (Sample.calm 0%Q);
     unlink := unlink (Sample.calm 0%Q);
     write_log_line := write_log_line (Sample.calm 0%Q);
     time_time := 0%Q;
     time_start := 0%Q;
     time_end := 0%Q;
     time_marked := fun _ => 0%Q;
     datetime_now := 0%Q;
     datetime_now_strftime := "20240101_120000" |}.

(** The folder "in" exists and holds two audio files. *)
Definition folders : Folders :=
  {| folder_exists := fun folder => String.eqb folder "in";
     find_audio_files := fun _ => ["in/a.wav"; "in/b.mp3"] |}.

(** Three backups, the second the newest. *)
Definition backup_time (f : string) : Q :=
  if String.eqb f "b2" then 3%Q else if String.eqb f "b3" then 2%Q else 1%Q.

Definition backups : FileManager.BackupDir :=
  {| FileManager.dir_exists := true;
     FileManager.glob_all := ["b1"; "b2"; "b3"];
     FileManager.st_mtime := fun f => Returns (backup_time f);
     FileManager.unlink_file := fun _ => Returns tt |}.

Definition missing_backups : FileManager.BackupDir :=
  {| FileManager.dir_exists := false;
     FileManager.glob_all := [];
     FileManager.st_mtime := fun f => Returns (backup_time f);
     FileManager.unlink_file := fun _ => Returns tt |}.

Definition tree : gmap string FileManager.HashEntry :=
  {[ "in/a.wav" := FileManager.mkHashEntry "0cc175b9" 1024 10%Q ]}.

Definition touched_tree : gmap string FileManager.HashEntry :=
  {[ "in/a.wav" := FileManager.mkHashEntry "0cc175b9" 1024 99%Q ]}.

(** A configuration file that only sets the number of workers. *)
Definition user_config : gmap string ConfigFile.Json :=
  {[ "max_workers" := ConfigFile.JNumber 4 ]}.

End Example.

(* ------------------------------------------------------------------ *)
(** ** Facts about the queue *)

Section QueueFacts.

Import ProcessingQueue Order.

Lemma key_leb_spec a b : key_leb a b = true <-> key_le a b.
Proof.
  unfold key_leb, key_le.
  rewrite orb_true_iff, andb_true_iff, Z.ltb_lt, Z.eqb_eq, Z.leb_le.
  reflexivity.
Qed.

Lemma entry_ltb_false_key_le a b : entry_ltb a b = false -> key_le b a.
Proof.
  unfold entry_ltb, key_le.
  rewrite orb_false_iff, andb_false_iff, Z.ltb_ge, Z.eqb_neq, Z.ltb_ge.
  lia.
Qed.

Lemma entry_ltb_true_key_le a b : entry_ltb a b = true -> key_le a b.
Proof.
  unfold entry_ltb, key_le.
  rewrite orb_true_iff, andb_true_iff, Z.ltb_lt, Z.eqb_eq, Z.ltb_lt.
  lia.
Qed.

Lemma key_le_trans a b c : key_le a b -> key_le b c -> key_le a c.
Proof. unfold key_le. lia. Qed.

Lemma key_le_total a b : key_le a b \/ key_le b a.
Proof. unfold key_le. lia. Qed.

Lemma key_le_antisym a b : key_le a b -> key_le b a -> key a = key b.
Proof. unfold key_le, key. intros. f_equal; lia. Qed.

(** [select] takes one entry out and keeps all the others. *)
Lemma select_perm x l m r : select x l = (m, r) -> x :: l ≡ₚ m :: r.
Proof.
  revert x m r. induction l as [|y l IH]; intros x m r; simpl.
  - intros [= <- <-]. reflexivity.
  - destruct (entry_ltb y x).
    + destruct (select y l) as [m' r'] eqn:E. intros [= <- <-].
      rewrite (IH _ _ _ E). apply Permutation_swap.
    + destruct (select x l) as [m' r'] eqn:E. intros [= <- <-].
      etrans; [apply Permutation_swap |].
      rewrite (IH _ _ _ E). apply Permutation_swap.
Qed.

(** The entry [select] takes out is not after any of those it keeps, nor
    after the candidate it started from. *)
Lemma select_least x l m r :
  select x l = (m, r) -> key_le m x /\ Forall (key_le m) r.
Proof.
  revert x m r. induction l as [|y l IH]; intros x m r; simpl.
  - intros [= <- <-]. split; [unfold key_le; lia | constructor].
  - destruct (entry_ltb y x) eqn:C.
    + destruct (select y l) as [m' r'] eqn:E. intros [= <- <-].
      destruct (IH _ _ _ E) as [Hy Hr].
      pose proof (entry_ltb_true_key_le _ _ C) as Hyx.
      split; [eapply key_le_trans; eauto |].
      constructor; [eapply key_le_trans; eauto | exact Hr].
    + destruct (select x l) as [m' r'] eqn:E. intros [= <- <-].
      destruct (IH _ _ _ E) as [Hx Hr].
      pose proof (entry_ltb_false_key_le _ _ C) as Hxy.
      split; [exact Hx |].
      constructor; [eapply key_le_trans; eauto | exact Hr].
Qed.

Lemma select_length x l m r : select x l = (m, r) -> length r = length l.
Proof.
  intros H. apply select_perm, Permutation_length in H. simpl in H. lia.
Qed.

(** Releasing a queue entry by entry, with one call per entry, gives all
    its entries, in the order of their keys. *)
Lemma release_perm n h : length h = n -> release n h ≡ₚ h.
Proof.
  revert h. induction n as [|n IH]; intros h Hn.
  - destruct h; [reflexivity | discriminate].
  - destruct h as [|x l]; [discriminate |]. simpl.
    destruct (select x l) as [m r] eqn:E.
    rewrite (select_perm _ _ _ _ E). f_equiv. apply IH.
    rewrite (select_length _ _ _ _ E). simpl in Hn. lia.
Qed.

Lemma release_sorted n h : length h = n -> StronglySorted key_le (release n h).
Proof.
  revert h. induction n as [|n IH]; intros h Hn.
  - constructor.
  - destruct h as [|x l]; [discriminate |]. simpl.
    destruct (select x l) as [m r] eqn:E.
    assert (Hr : length r = n).
    { rewrite (select_length _ _ _ _ E). simpl in Hn. lia. }
    constructor; [apply IH, Hr |].
    rewrite (release_perm n r Hr). apply (select_least _ _ _ _ E).
Qed.

(** The stable sort is a sort. *)
Lemma insert_perm x l : insert x l ≡ₚ x :: l.
Proof.
  induction l as [|y l IH]; simpl; [reflexivity |].
  destruct (key_leb x y); [reflexivity |].
  rewrite IH. apply Permutation_swap.
Qed.

Lemma stable_sort_perm l : stable_sort l ≡ₚ l.
Proof.
  induction l as [|x l IH]; simpl; [reflexivity |].
  rewrite insert_perm. f_equiv. exact IH.
Qed.

Lemma insert_sorted x l :
  StronglySorted key_le l -> StronglySorted key_le (insert x l).
Proof.
  induction 1 as [|y l Hs IH Hy]; simpl.
  - repeat constructor.
  - destruct (key_leb x y) eqn:C.
    + apply key_leb_spec in C.
      constructor; [constructor; assumption |].
      constructor; [exact C |].
      eapply Forall_impl; [exact Hy |].
      intros z Hz. eapply key_le_trans; eauto.
    + assert (Hyx : key_le y x).
      { destruct (key_le_total x y) as [H|H]; [|exact H].
        apply key_leb_spec in H. congruence. }
      constructor; [exact IH |].
      rewrite insert_perm. constructor; assumption.
Qed.

Lemma stable_sort_sorted l : StronglySorted key_le (stable_sort l).
Proof.
  induction l as [|x l IH]; simpl; [constructor | apply insert_sorted, IH].
Qed.

(** Two lists in key order with the same entries are the same list, when
    no two entries carry the same sequence number. *)
Lemma sorted_perm_unique l1 l2 :
  NoDup (map entry_id l1) ->
  StronglySorted key_le l1 -> StronglySorted key_le l2 ->
  l1 ≡ₚ l2 -> l1 = l2.
Proof.
  revert l2. induction l1 as [|a l1 IH]; intros l2 Hnd H1 H2 Hp.
  - symmetry. apply Permutation_nil. exact Hp.
  - destruct l2 as [|b l2].
    { symmetry in Hp. apply Permutation_nil in Hp. discriminate. }
    apply StronglySorted_inv in H1 as [H1 Ha].
    apply StronglySorted_inv in H2 as [H2 Hb].
    apply NoDup_cons in Hnd as [Hna Hnd].
    assert (a = b) as <-.
    { assert (Hin_a : a ∈ b :: l2) by (rewrite <- Hp; left).
      assert (Hin_b : b ∈ a :: l1) by (rewrite Hp; left).
      apply elem_of_cons in Hin_a as [-> | Ha2]; [reflexivity |].
      apply elem_of_cons in Hin_b as [-> | Hb1]; [reflexivity |].
      exfalso. apply Hna.
      rewrite Forall_forall in Ha, Hb.
      pose proof (key_le_antisym _ _ (Ha _ Hb1) (Hb _ Ha2)) as Hk.
      unfold key in Hk. injection Hk as _ ->.
      apply list_elem_of_fmap. exists b. split; [reflexivity | exact Hb1]. }
    f_equal. apply IH; try assumption.
    eapply Permutation_cons_inv. exact Hp.
Qed.

(** Hence [dequeue] releases a queue with distinct sequence numbers in
    the order of the stable sort. *)
Lemma release_stable_sort h :
  NoDup (map entry_id h) -> release (length h) h = stable_sort h.
Proof.
  intros Hnd. apply sorted_perm_unique.
  - rewrite (release_perm _ h eq_refl). exact Hnd.
  - apply release_sorted. reflexivity.
  - apply stable_sort_sorted.
  - rewrite (release_perm _ h eq_refl), stable_sort_perm. reflexivity.
Qed.

Lemma drain_release n q :
  drain n q = map entry_item (release n (queue q)).
Proof.
  revert q. induction n as [|n IH]; intros q; [reflexivity |].
  simpl. unfold dequeue.
  destruct (get_nowait (queue q)) as [[[[pr id] item] rest]|]; [|reflexivity].
  simpl. f_equal. apply IH.
Qed.

Lemma dequeue_all_stable_sort q :
  NoDup (map entry_id (queue q)) ->
  dequeue_all q = map entry_item (stable_sort (queue q)).
Proof.
  intros Hnd. unfold dequeue_all.
  rewrite drain_release, release_stable_sort by exact Hnd. reflexivity.
Qed.

End QueueFacts.

Section EnqueueFacts.

Import ProcessingQueue Order WatchFolderProcessor.

Lemma priority_value_name pr : priority_value (priority_name pr) = priority_number pr.
Proof. destruct pr; vm_compute; reflexivity. Qed.

Lemma numbered_ids_above seq reqs :
  Forall (fun e => seq < entry_id e) (numbered seq reqs).
Proof.
  revert seq. induction reqs as [|r reqs IH]; intros seq; simpl; constructor.
  - unfold entry_id. simpl. lia.
  - eapply Forall_impl; [apply IH |]. simpl. intros e He. lia.
Qed.

Lemma numbered_ids_distinct seq reqs : NoDup (map entry_id (numbered seq reqs)).
Proof.
  revert seq. induction reqs as [|r reqs IH]; intros seq; simpl; constructor.
  - intros Hin. apply list_elem_of_fmap in Hin as (e & He & Hin).
    pose proof (numbered_ids_above (seq + 1) reqs) as Habove.
    rewrite Forall_forall in Habove. specialize (Habove _ Hin).
    unfold entry_id in He at 1. simpl in He. lia.
  - apply IH.
Qed.

(** The task of every accepted request is put on the queue under the next
    sequence number. *)
Lemma enqueue_files_queue reqs p :
  ProcessingQueue.queue (queue (enqueue_files reqs p))
  = (ProcessingQueue.queue (queue p)
     ++ numbered (task_id (queue p)) (accepted reqs p))%list.
Proof.
  revert p. induction reqs as [|[[w path] pr] reqs IH]; intros p; simpl.
  - rewrite app_nil_r. reflexivity.
  - unfold enqueue_file.
    destruct (size (queue p) >=? max_queue_size (config p)) eqn:Hfull; simpl.
    + apply IH.
    + rewrite IH. simpl. unfold put. rewrite <- app_assoc. simpl.
      rewrite priority_value_name. reflexivity.
Qed.

(** As long as the capacity is not reached every request is accepted. *)
Lemma accepted_all reqs p :
  size (queue p) + Z.of_nat (length reqs) <= max_queue_size (config p) ->
  accepted reqs p = reqs.
Proof.
  revert p. induction reqs as [|[[w path] pr] reqs IH]; intros p Hcap; simpl.
  - reflexivity.
  - simpl in Hcap. unfold enqueue_file.
    destruct (size (queue p) >=? max_queue_size (config p)) eqn:Hfull.
    { rewrite Z.geb_le in Hfull. lia. }
    f_equal. apply IH.
    unfold size in *. simpl. unfold put. rewrite length_app. simpl. lia.
Qed.

End EnqueueFacts.

(** C1 (priority ordering).  Take any sequence of [enqueue_file] calls that
    mix the priorities 'high', 'medium' and 'low', made on an empty queue.
    Emptying the queue with [dequeue] then returns the tasks in the order of
    a stable sort of the enqueued tasks by the pair (numeric priority,
    sequence number), with high = 0, medium = 1, low = 2 and the sequence
    number growing by one with every enqueue.  The enqueued tasks are those
    of the accepted calls, which are all the calls when the queue has room
    for them. *)
Theorem dequeue_order_is_stable_sort (reqs : list request) (p : WatchFolderProcessor.t) :
  ProcessingQueue.queue (WatchFolderProcessor.queue p) = [] ->
  ProcessingQueue.dequeue_all (WatchFolderProcessor.queue (enqueue_files reqs p))
  = map ProcessingQueue.entry_item
      (Order.stable_sort
         (numbered (ProcessingQueue.task_id (WatchFolderProcessor.queue p))
            (accepted reqs p)))
  /\ (Z.of_nat (length reqs) <= max_queue_size (WatchFolderProcessor.config p) ->
      accepted reqs p = reqs).
Proof.
  intros Hempty. split.
  - rewrite dequeue_all_stable_sort; rewrite enqueue_files_queue, Hempty; simpl.
    + reflexivity.
    + apply numbered_ids_distinct.
  - intros Hroom. apply accepted_all.
    unfold ProcessingQueue.size. rewrite Hempty. simpl. lia.
Qed.

(** C3 (capacity).  When the size of the queue equals the configured
    [max_queue_size], [enqueue_file] answers [False] and leaves the
    processor, hence the size and the contents of the queue, as they were.
    In particular, with [max_queue_size = 2] and an empty queue, enqueuing
    (A, medium), (B, medium), (C, high) accepts A and B and refuses C. *)
Theorem enqueue_file_full_rejects (w : World) (path priority : string)
    (p : WatchFolderProcessor.t) :
  ProcessingQueue.size (WatchFolderProcessor.queue p)
  = max_queue_size (WatchFolderProcessor.config p) ->
  WatchFolderProcessor.enqueue_file w path priority p = (false, p)
  /\ (forall q : WatchFolderProcessor.t,
        ProcessingQueue.queue (WatchFolderProcessor.queue q) = [] ->
        max_queue_size (WatchFolderProcessor.config q) = 2 ->
        let '(okA, qA) := WatchFolderProcessor.enqueue_file w "A" "medium" q in
        let '(okB, qB) := WatchFolderProcessor.enqueue_file w "B" "medium" qA in
        let '(okC, qC) := WatchFolderProcessor.enqueue_file w "C" "high" qB in
        okA = true /\ okB = true /\ okC = false /\ qC = qB
        /\ ProcessingQueue.size (WatchFolderProcessor.queue qC) = 2).
Proof.
  intros Hfull. split.
  - unfold WatchFolderProcessor.enqueue_file. rewrite Hfull.
    replace (_ >=? _) with true by (symmetry; apply Z.geb_le; lia).
    reflexivity.
  - intros [cfg [h tid] ws hs run st] Hempty Hmax. simpl in Hempty, Hmax. subst h.
    unfold WatchFolderProcessor.enqueue_file, ProcessingQueue.size,
      ProcessingQueue.enqueue, ProcessingQueue.put.
    simpl. repeat (rewrite Hmax; simpl). repeat split; reflexivity.
Qed.

Section PriorityStrings.

Import ProcessingQueue Order WatchFolderProcessor.

Lemma lower_char_idem c : Str.lower_char (Str.lower_char c) = Str.lower_char c.
Proof. destruct c as [[] [] [] [] [] [] [] []]; reflexivity. Qed.

Lemma lower_lower s : Str.lower (Str.lower s) = Str.lower s.
Proof.
  induction s as [|c s IH]; simpl; [reflexivity |].
  rewrite lower_char_idem, IH. reflexivity.
Qed.

Lemma lower_upper s : Str.lower (Str.upper s) = Str.lower s.
Proof.
  induction s as [|c s IH]; simpl; [reflexivity |].
  rewrite IH. f_equal.
  destruct c as [[] [] [] [] [] [] [] []]; reflexivity.
Qed.

Lemma priority_value_lower s : priority_value (Str.lower s) = priority_value s.
Proof. unfold priority_value. rewrite lower_lower. reflexivity. Qed.

Lemma priority_value_upper s : priority_value (Str.upper s) = priority_value s.
Proof. unfold priority_value. rewrite lower_upper. reflexivity. Qed.

Lemma priority_value_unrecognised s :
  Str.lower s <> "high" -> Str.lower s <> "medium" -> Str.lower s <> "low" ->
  priority_value s = 1.
Proof.
  intros Hh Hm Hl. unfold priority_value, priority_map.
  rewrite !lookup_insert_ne by congruence.
  rewrite lookup_singleton_ne by congruence. reflexivity.
Qed.

Lemma alike_ltb a a' b b' : alike a a' -> alike b b' -> entry_ltb a b = entry_ltb a' b'.
Proof.
  unfold alike, key, entry_ltb. intros [[= -> ->] _] [[= -> ->] _]. reflexivity.
Qed.

Lemma select_alike l l' :
  Forall2 alike l l' ->
  forall x x', alike x x' ->
    alike (fst (select x l)) (fst (select x' l'))
    /\ Forall2 alike (snd (select x l)) (snd (select x' l')).
Proof.
  induction 1 as [|y y' l l' Hy Hl IH]; intros x x' Hx; simpl.
  - split; [exact Hx | constructor].
  - rewrite (alike_ltb _ _ _ _ Hy Hx).
    destruct (entry_ltb y' x').
    + destruct (IH _ _ Hy) as [Hm Hr].
      destruct (select y l), (select y' l'). simpl in *.
      split; [exact Hm | constructor; assumption].
    + destruct (IH _ _ Hx) as [Hm Hr].
      destruct (select x l), (select x' l'). simpl in *.
      split; [exact Hm | constructor; assumption].
Qed.

Lemma release_alike n h h' :
  Forall2 alike h h' -> Forall2 alike (release n h) (release n h').
Proof.
  revert h h'. induction n as [|n IH]; intros h h' Hh; simpl; [constructor |].
  destruct Hh as [|x x' l l' Hx Hl]; simpl; [constructor |].
  destruct (select_alike _ _ Hl _ _ Hx) as [Hm Hr].
  destruct (select x l), (select x' l'). simpl in *.
  constructor; [exact Hm | apply IH, Hr].
Qed.

Lemma alike_refl : forall e, alike e e.
Proof. intros e. split; reflexivity. Qed.

(** Queues whose entries stand for each other release their files in
    the same order. *)
Lemma dequeue_all_alike q q' :
  Forall2 alike (ProcessingQueue.queue q) (ProcessingQueue.queue q') ->
  map file_path (dequeue_all q) = map file_path (dequeue_all q').
Proof.
  intros Hq. unfold dequeue_all. rewrite !drain_release.
  rewrite <- (Forall2_length _ _ _ Hq).
  pose proof (release_alike (length (ProcessingQueue.queue q)) _ _ Hq) as Hr.
  induction Hr as [|a b l l' [_ Hab] _ IH]; simpl; [reflexivity |].
  rewrite Hab, IH. reflexivity.
Qed.

End PriorityStrings.

(** C10 (unrecognised priority strings).  A priority string whose lower-case
    form is none of 'high', 'medium', 'low' is mapped by [enqueue_file] to
    the numeric priority 1 without any complaint.  While the queue has room
    the call is answered [True] and puts one entry at the end of the queue:
    its key is the priority 1 and the next task id, and its task carries the
    path and the priority string as given.  On a full queue the call is
    answered [False] and changes nothing.  In both cases the call is
    answered as a call with 'medium' is, its task gets the key a medium task
    gets, and the queue releases its files in the same order.  Priority
    strings are read in any letter case. *)
Theorem unrecognised_priority_is_medium (w : World) (path priority : string)
    (p : WatchFolderProcessor.t) :
  Str.lower priority <> "high" ->
  Str.lower priority <> "medium" ->
  Str.lower priority <> "low" ->
  let given := WatchFolderProcessor.enqueue_file w path priority p in
  let medium := WatchFolderProcessor.enqueue_file w path "medium" p in
  WatchFolderProcessor.priority_value priority = 1
  /\ (ProcessingQueue.size (WatchFolderProcessor.queue p)
      < max_queue_size (WatchFolderProcessor.config p) ->
      given
      = (true,
         WatchFolderProcessor.with_queue
           (ProcessingQueue.mk
              (ProcessingQueue.queue (WatchFolderProcessor.queue p)
               ++ [ (1, ProcessingQueue.task_id (WatchFolderProcessor.queue p) + 1,
                     {| file_path := path;
                        priority := priority;
                        enqueued_time := datetime_now w;
                        status := "queued" |}) ])%list
              (ProcessingQueue.task_id (WatchFolderProcessor.queue p) + 1))
           p))
  /\ (max_queue_size (WatchFolderProcessor.config p)
      <= ProcessingQueue.size (WatchFolderProcessor.queue p) ->
      given = (false, p))
  /\ fst given = fst medium
  /\ map Order.key (ProcessingQueue.queue (WatchFolderProcessor.queue (snd given)))
     = map Order.key (ProcessingQueue.queue (WatchFolderProcessor.queue (snd medium)))
  /\ map file_path (ProcessingQueue.dequeue_all (WatchFolderProcessor.queue (snd given)))
     = map file_path (ProcessingQueue.dequeue_all (WatchFolderProcessor.queue (snd medium)))
  /\ (forall s : string,
        WatchFolderProcessor.priority_value (Str.upper s)
        = WatchFolderProcessor.priority_value s
        /\ WatchFolderProcessor.priority_value (Str.lower s)
           = WatchFolderProcessor.priority_value s)
  /\ WatchFolderProcessor.priority_value "HIGH" = 0
  /\ WatchFolderProcessor.priority_value "Medium" = 1
  /\ WatchFolderProcessor.priority_value "lOw" = 2.
Proof.
  intros Hh Hm Hl given medium.
  pose proof (priority_value_unrecognised priority Hh Hm Hl) as Hone.
  assert (Hmed : WatchFolderProcessor.priority_value "medium" = 1)
    by (vm_compute; reflexivity).
  assert (Halike :
    Forall2 alike
      (ProcessingQueue.queue (WatchFolderProcessor.queue (snd given)))
      (ProcessingQueue.queue (WatchFolderProcessor.queue (snd medium)))).
  { subst given medium. unfold WatchFolderProcessor.enqueue_file.
    rewrite Hone, Hmed.
    destruct (_ >=? _); simpl.
    - apply Forall_Forall2_diag, Forall_forall. intros e _. apply alike_refl.
    - unfold ProcessingQueue.put. apply Forall2_app.
      + apply Forall_Forall2_diag, Forall_forall. intros e _. apply alike_refl.
      + constructor; [split; reflexivity | constructor]. }
  split; [exact Hone |].
  split.
  { intros Hroom. subst given. unfold WatchFolderProcessor.enqueue_file.
    rewrite Hone.
    destruct (_ >=? _) eqn:Hfull; [rewrite Z.geb_leb in Hfull; apply Z.leb_le in Hfull; lia |].
    reflexivity. }
  split.
  { intros Hfull. subst given. unfold WatchFolderProcessor.enqueue_file.
    destruct (_ >=? _) eqn:Hge; [reflexivity |].
    rewrite Z.geb_leb in Hge. apply Z.leb_gt in Hge. lia. }
  split.
  { subst given medium. unfold WatchFolderProcessor.enqueue_file.
    destruct (_ >=? _); reflexivity. }
  split.
  { clear -Halike. induction Halike as [|a b l l' [Hk _] _ IH]; simpl; [reflexivity |].
    rewrite Hk, IH. reflexivity. }
  split; [apply dequeue_all_alike, Halike |].
  split; [intros s; split; [apply priority_value_upper | apply priority_value_lower] |].
  repeat split; vm_compute; reflexivity.
Qed.

(* ------------------------------------------------------------------ *)
(** ** Facts about the statistics *)

Section StatsFacts.

Import WatchFolderProcessor.

Lemma enqueue_file_stats w path priority p :
  stats (snd (enqueue_file w path priority p)) = stats p.
Proof. unfold enqueue_file. destruct (_ >=? _); reflexivity. Qed.

Lemma deliver_stats w folder kind event p :
  stats (WatchFolderEvents.deliver w folder kind event p) = stats p.
Proof.
  unfold WatchFolderEvents.deliver.
  destruct (handlers p !! folder) as [h|]; [|reflexivity].
  destruct kind; unfold WatchFolderEvents.on_created, WatchFolderEvents.on_modified;
    repeat case_match; rewrite ?enqueue_file_stats; reflexivity.
Qed.

Lemma add_watch_folder_stats w folder p p' :
  add_watch_folder w folder p = Returns p' -> stats p' = stats p.
Proof.
  unfold add_watch_folder. intros H.
  repeat case_match; simplify_eq; reflexivity.
Qed.

Lemma process_file_stats w task p : stats (snd (process_file w task p)) = stats p.
Proof.
  unfold process_file.
  destruct (try_body _ _ _ _) as [o [r hs]]. reflexivity.
Qed.

Lemma process_file_queue w task p : queue (snd (process_file w task p)) = queue p.
Proof.
  unfold process_file.
  destruct (try_body _ _ _ _) as [o [r hs]]. reflexivity.
Qed.

(** A pass that takes a task off the queue leaves the queue without it and
    records its result. *)
Lemma worker_pass_completes w worker_id p task q' :
  ProcessingQueue.dequeue (queue p) = (Some task, q') ->
  let result := fst (process_file w task (with_queue q' p)) in
  let p' := after (_worker_pass w worker_id p) in
  queue p' = q' /\ stats p' = record_result w result (stats p).
Proof.
  intros Hdq. unfold _worker_pass. rewrite Hdq.
  pose proof (process_file_stats w task (with_queue q' p)) as Hs.
  pose proof (process_file_queue w task (with_queue q' p)) as Hq.
  destruct (process_file w task (with_queue q' p)) as [r p1]. simpl in *.
  destruct (_log_result _ _ _ _); simpl; rewrite Hs, Hq; split; reflexivity.
Qed.

Lemma worker_pass_idle w worker_id p q' :
  ProcessingQueue.dequeue (queue p) = (None, q') ->
  _worker_pass w worker_id p = mkPass p None [Slept (1 # 2)].
Proof. intros Hdq. unfold _worker_pass. rewrite Hdq. reflexivity. Qed.

(** What an action does to the statistics. *)
Lemma perform_stats a p p' :
  perform a p = Some p' ->
  stats p' =
  match a, completed a p with
  | WorkerPass w _, Some r => record_result w r (stats p)
  | _, _ => stats p
  end.
Proof.
  destruct a as [w folder|w path priority|w folder kind event| | |w worker_id]; simpl.
  - destruct (add_watch_folder w folder p) eqn:E; intros [= <-]; [|reflexivity].
    eapply add_watch_folder_stats; eauto.
  - intros [= <-]. apply enqueue_file_stats.
  - intros [= <-]. apply deliver_stats.
  - intros [= <-]. reflexivity.
  - intros [= <-]. reflexivity.
  - destruct (running p); [|discriminate]. intros [= <-].
    destruct (ProcessingQueue.dequeue (queue p)) as [[task|] q'] eqn:Hdq.
    + apply (worker_pass_completes w worker_id p task q' Hdq).
    + rewrite (worker_pass_idle _ _ _ _ Hdq). reflexivity.
Qed.

(** The counters after a run, from the counters before it and the results
    of the tasks completed in between. *)
Lemma run_stats acts p p' :
  run acts p = Some p' ->
  Stats.processed_files (stats p')
  = Stats.processed_files (stats p) + Z.of_nat (length (results acts p))
  /\ Stats.failed_files (stats p')
     = Stats.failed_files (stats p) + Z.of_nat (length (failures (results acts p)))
  /\ Stats.total_processing_time (stats p')
     = fold_left Qplus (map Result.processing_time (results acts p))
         (Stats.total_processing_time (stats p)).
Proof.
  revert p. induction acts as [|a acts IH]; intros p; simpl.
  - intros [= <-]. repeat split; lia.
  - destruct (perform a p) as [p1|] eqn:Hp; [|discriminate].
    intros Hrun. destruct (IH _ Hrun) as (Hproc & Hfail & Htot).
    pose proof (perform_stats _ _ _ Hp) as Hs.
    destruct (completed a p) as [r|] eqn:Hc.
    + destruct a; try discriminate. rewrite Hc in Hs.
      rewrite Hs in Hproc, Hfail, Htot.
      unfold failures in *. unfold record_result in Hproc, Hfail, Htot.
      cbn [Stats.processed_files Stats.failed_files Stats.total_processing_time]
        in Hproc, Hfail, Htot.
      rewrite Hproc, Hfail, Htot.
      destruct (Result.success r) eqn:Hsucc; cbn [negb map fold_left length].
      * rewrite filter_cons_False by congruence.
        repeat split; try reflexivity; lia.
      * rewrite filter_cons_True by congruence. cbn [length].
        repeat split; try reflexivity; lia.
    + assert (Hs' : stats p1 = stats p) by (destruct a; rewrite ?Hc in Hs; exact Hs).
      rewrite Hs' in Hproc, Hfail, Htot. auto.
Qed.

Lemma failures_length rs : (length (failures rs) <= length rs)%nat.
Proof. apply length_filter. Qed.

End StatsFacts.

(** C9 (statistics).  Every task a worker completes adds exactly 1 to
    [processed_files], whether or not it succeeded, and adds 1 to
    [failed_files] exactly when its result is unsuccessful.  Hence, in every
    state a run reaches, [processed_files] is the number of completed tasks,
    failed ones included, [failed_files] is the number of unsuccessful ones
    and is at most [processed_files], and the [avg_processing_time] reported
    by [get_stats] is [total_processing_time] divided by that inclusive
    count, and 0 when no task has completed. *)
Theorem stats_count_completed_tasks (cfg : Config) (acts : list Action)
    (p : WatchFolderProcessor.t) (is_alive : Z -> bool) :
  run acts (WatchFolderProcessor.init cfg) = Some p ->
  let done := results acts (WatchFolderProcessor.init cfg) in
  let s := WatchFolderProcessor.get_stats is_alive p in
  (forall w worker_id task q',
      ProcessingQueue.dequeue (WatchFolderProcessor.queue p) = (Some task, q') ->
      let result :=
        fst (WatchFolderProcessor.process_file w task
               (WatchFolderProcessor.with_queue q' p)) in
      let after :=
        WatchFolderProcessor.stats
          (WatchFolderProcessor.after (WatchFolderProcessor._worker_pass w worker_id p)) in
      Stats.processed_files after
      = Stats.processed_files (WatchFolderProcessor.stats p) + 1
      /\ Stats.failed_files after
         = Stats.failed_files (WatchFolderProcessor.stats p)
           + (if Result.success result then 0 else 1))
  /\ WatchFolderProcessor.processed s = Z.of_nat (length done)
  /\ WatchFolderProcessor.failed s = Z.of_nat (length (failures done))
  /\ WatchFolderProcessor.failed s <= WatchFolderProcessor.processed s
  /\ Stats.total_processing_time (WatchFolderProcessor.copied s)
     = fold_left Qplus (map Result.processing_time done) 0%Q
  /\ WatchFolderProcessor.avg_processing_time s
     = (if WatchFolderProcessor.processed s >? 0
        then (Stats.total_processing_time (WatchFolderProcessor.copied s)
              / inject_Z (WatchFolderProcessor.processed s))%Q
        else 0%Q)
  /\ (done = [] -> WatchFolderProcessor.avg_processing_time s = 0%Q).
Proof.
  intros Hrun done s.
  destruct (run_stats _ _ _ Hrun) as (Hproc & Hfail & Htot).
  fold done in Hproc, Hfail, Htot. simpl in Hproc, Hfail, Htot.
  split.
  { intros w worker_id task q' Hdq result after.
    destruct (worker_pass_completes w worker_id p task q' Hdq) as [_ Hs].
    subst after. rewrite Hs. fold result. unfold WatchFolderProcessor.record_result.
    cbn [Stats.processed_files Stats.failed_files].
    destruct (Result.success result); simpl; split; lia. }
  unfold WatchFolderProcessor.processed, WatchFolderProcessor.failed. subst s.
  cbn [WatchFolderProcessor.get_stats WatchFolderProcessor.copied
       WatchFolderProcessor.avg_processing_time].
  split; [exact Hproc |].
  split; [exact Hfail |].
  split; [rewrite Hproc, Hfail; pose proof (failures_length done); lia |].
  split; [exact Htot |].
  split; [reflexivity |].
  intros Hnone. rewrite Hproc, Hnone. reflexivity.
Qed.

(** C7 (no retry).  A worker pass takes its task off the queue and puts
    nothing back, whatever the result of processing it: a task that failed,
    for an input/output failure as for a validation failure, is not enqueued
    again, and is counted once as processed and once as failed. *)
Theorem failed_task_is_not_requeued (w : World) (worker_id : Z)
    (p : WatchFolderProcessor.t) (task : Task) (q' : ProcessingQueue.t) :
  ProcessingQueue.dequeue (WatchFolderProcessor.queue p) = (Some task, q') ->
  let result :=
    fst (WatchFolderProcessor.process_file w task (WatchFolderProcessor.with_queue q' p)) in
  let p' := WatchFolderProcessor.after (WatchFolderProcessor._worker_pass w worker_id p) in
  WatchFolderProcessor.queue p' = q'
  /\ ProcessingQueue.task_id (WatchFolderProcessor.queue p')
     = ProcessingQueue.task_id (WatchFolderProcessor.queue p)
  /\ ProcessingQueue.size (WatchFolderProcessor.queue p')
     = ProcessingQueue.size (WatchFolderProcessor.queue p) - 1
  /\ (Result.success result = false ->
      Stats.failed_files (WatchFolderProcessor.stats p')
      = Stats.failed_files (WatchFolderProcessor.stats p) + 1
      /\ Stats.processed_files (WatchFolderProcessor.stats p')
         = Stats.processed_files (WatchFolderProcessor.stats p) + 1).
Proof.
  intros Hdq result p'.
  destruct (worker_pass_completes w worker_id p task q' Hdq) as [Hq Hs].
  fold p' in Hq, Hs. fold result in Hs.
  split; [exact Hq |]. rewrite Hq.
  unfold ProcessingQueue.dequeue in Hdq.
  destruct (ProcessingQueue.queue (WatchFolderProcessor.queue p)) as [|x l] eqn:Hl;
    [discriminate |].
  simpl in Hdq. destruct (ProcessingQueue.select x l) as [[[pr id] item] rest] eqn:Hsel.
  injection Hdq as _ <-.
  split; [reflexivity |].
  split.
  { unfold ProcessingQueue.size. rewrite Hl. simpl.
    rewrite (select_length _ _ _ _ Hsel). lia. }
  intros Hfail. rewrite Hs. unfold WatchFolderProcessor.record_result.
  rewrite Hfail. simpl. split; reflexivity.
Qed.

(** C8 (dequeue).  [dequeue] takes no timeout and never waits: on an empty
    queue it answers [None] at once and leaves the queue as it is, and the
    worker then sleeps half a second before it looks again; on a non-empty
    queue it returns a task of the queue, one whose key is lowest, and the
    queue holds one entry less. *)
Theorem dequeue_answers_at_once (q : ProcessingQueue.t) :
  (ProcessingQueue.queue q = [] ->
   ProcessingQueue.dequeue q = (None, q)
   /\ forall w worker_id p,
        WatchFolderProcessor.queue p = q ->
        WatchFolderProcessor._worker_pass w worker_id p
        = WatchFolderProcessor.mkPass p None [Slept (1 # 2)])
  /\ (ProcessingQueue.queue q <> [] ->
      exists e q',
        ProcessingQueue.dequeue q = (Some (ProcessingQueue.entry_item e), q')
        /\ e ∈ ProcessingQueue.queue q
        /\ Forall (Order.key_le e) (ProcessingQueue.queue q)
        /\ ProcessingQueue.size q' = ProcessingQueue.size q - 1).
Proof.
  split.
  - intros Hempty.
    assert (Hdq : ProcessingQueue.dequeue q = (None, q)).
    { unfold ProcessingQueue.dequeue. rewrite Hempty. reflexivity. }
    split; [exact Hdq |].
    intros w worker_id p <-. apply (worker_pass_idle _ _ _ _ Hdq).
  - intros Hne. unfold ProcessingQueue.dequeue, ProcessingQueue.size.
    destruct (ProcessingQueue.queue q) as [|x l]; [congruence |]. simpl.
    destruct (ProcessingQueue.select x l) as [[[pr id] item] rest] eqn:Hsel.
    exists (pr, id, item), (ProcessingQueue.mk rest (ProcessingQueue.task_id q)).
    pose proof (select_perm _ _ _ _ Hsel) as Hperm.
    destruct (select_least _ _ _ _ Hsel) as [Hx Hrest].
    split; [reflexivity |].
    split; [rewrite Hperm; left |].
    split.
    + rewrite Hperm. constructor; [unfold Order.key_le; lia | exact Hrest].
    + simpl. rewrite (select_length _ _ _ _ Hsel). lia.
Qed.

(* ------------------------------------------------------------------ *)
(** ** Facts about [process_file] *)

Section ProcessFileFacts.

Import WatchFolderProcessor.

(** The two ways the statements inside [try] can end.  Either the result
    was never marked successful and the handlers are untouched: then an
    exception was raised, or the validation failed and its message was
    recorded.  Or the output was written: then the result is marked
    successful and every handler has marked the path, and if an exception
    followed it came from removing the original. *)
Lemma try_body_cases w cfg path r hs :
  Result.success r = false ->
  match try_body w cfg path (r, hs) with
  | (o, (r', hs')) =>
      (hs' = hs /\ Result.success r' = false
       /\ ((exists e, o = Raises e /\ Result.errors r' = Result.errors r)
           \/ (o = Returns tt
               /\ fst (validate_audio_file w path) = false
               /\ Result.errors r'
                  = (Result.errors r
                     ++ [String.append "Validation failed: "
                           (snd (validate_audio_file w path))])%list)))
      \/ (hs' = marked w path hs /\ Result.success r' = true
          /\ Result.errors r' = Result.errors r
          /\ fst (validate_audio_file w path) = true
          /\ (o = Returns tt
              \/ (exists e, o = Raises e
                  /\ auto_delete_original cfg = true
                  /\ unlink w path = Raises e)))
  end.
Proof.
  intros Hr. unfold try_body.
  destruct (validate_audio_file w path) as [valid err]. destruct valid; simpl.
  - unfold mbind, try_bind, bind, call, update, ret, mark_handlers, marked. simpl.
    repeat (case_match; simpl; simplify_eq);
      first [ left; repeat split; try assumption; left; eexists; split; reflexivity
            | right; repeat split; try reflexivity; eauto ].
  - unfold update. simpl. left. repeat split; try assumption.
    right. repeat split; reflexivity.
Qed.

(** What [process_file] returns and leaves behind. *)
Lemma process_file_cases w task p :
  let result := fst (process_file w task p) in
  let p' := snd (process_file w task p) in
  config p' = config p /\ queue p' = queue p /\ stats p' = stats p
  /\ running p' = running p
  /\ ((handlers p' = handlers p /\ Result.success result = false
       /\ exists msg, Result.errors result = [msg])
      \/ (handlers p' = marked w (file_path task) (handlers p)
          /\ Result.success result = true
          /\ fst (validate_audio_file w (file_path task)) = true
          /\ (Result.errors result = []
              \/ exists e,
                  Result.errors result = [e]
                  /\ auto_delete_original (config p) = true
                  /\ unlink w (file_path task) = Raises e))).
Proof.
  unfold process_file.
  match goal with
  | |- context [try_body w (config p) (file_path task) (?r0, handlers p)] =>
      pose proof (try_body_cases w (config p) (file_path task) r0 (handlers p) eq_refl) as H;
      destruct (try_body w (config p) (file_path task) (r0, handlers p)) as [o [r hs]]
  end.
  simpl in *. repeat split.
  destruct H as [(-> & Hs & [(e & -> & He) | (-> & Hv & He)])
                |(-> & Hs & He & Hv & [-> | (e & -> & Hd & Hu)])]; simpl.
  - left. repeat split; [exact Hs |]. rewrite He. eexists. reflexivity.
  - left. repeat split; [exact Hs |]. rewrite He. eexists. reflexivity.
  - right. repeat split; try assumption. left. exact He.
  - right. repeat split; try assumption. right. exists e. rewrite He. auto.
Qed.

(** An unsuccessful result carries the message of what went wrong. *)
Lemma process_file_failure_recorded w task p :
  Result.success (fst (process_file w task p)) = false ->
  exists msg, Result.errors (fst (process_file w task p)) = [msg].
Proof.
  intros Hf. destruct (process_file_cases w task p) as (_ & _ & _ & _ & [H | H]).
  - apply H.
  - destruct H as (_ & Hs & _). congruence.
Qed.


Lemma marked_lookup w path hs folder :
  marked w path hs !! folder
  = WatchFolderHandler.mark_processed (time_marked w folder) path <$> hs !! folder.
Proof.
  unfold marked. rewrite map_lookup_imap.
  destruct (hs !! folder); reflexivity.
Qed.

(** A pass of a worker leaves the configuration and the running flag as
    they are. *)
Lemma worker_pass_frame w worker_id p :
  config (after (_worker_pass w worker_id p)) = config p
  /\ running (after (_worker_pass w worker_id p)) = running p.
Proof.
  unfold _worker_pass.
  destruct (ProcessingQueue.dequeue (queue p)) as [[task|] q']; [|split; reflexivity].
  destruct (process_file_cases w task (with_queue q' p)) as (Hc & _ & _ & Hr & _).
  destruct (process_file w task (with_queue q' p)) as [r p1]. simpl in *.
  destruct (_log_result _ _ _ _); simpl; rewrite Hc, Hr; split; reflexivity.
Qed.

(** A pass is left by an exception only when the directory of the log file
    cannot be ensured. *)
Lemma worker_pass_escape w worker_id p e :
  escaped (_worker_pass w worker_id p) = Some e ->
  ensure_directory w (PathLib.parent (log_file (config p))) = Raises e.
Proof.
  unfold _worker_pass.
  destruct (ProcessingQueue.dequeue (queue p)) as [[task|] q']; [|discriminate].
  destruct (process_file_cases w task (with_queue q' p)) as (Hc & _).
  destruct (process_file w task (with_queue q' p)) as [r p1]. simpl in *.
  unfold _log_result. simpl. rewrite Hc.
  destruct (ensure_directory w _) as [[]|e'] eqn:He.
  - destruct (write_log_line w _); discriminate.
  - intros [= <-]. reflexivity.
Qed.

(** Whatever happens to the files, the loop goes on as long as the log
    directory can be ensured: no exception of [process_file] leaves it. *)
Lemma worker_loop_survives ws worker_id p :
  Forall (fun w => ensure_directory w (PathLib.parent (log_file (config p))) = Returns tt) ws ->
  escaped (_worker_loop ws worker_id p) = None.
Proof.
  revert p. induction ws as [|w ws IH]; intros p Hok; simpl; [reflexivity |].
  destruct (running p); [|reflexivity].
  apply Forall_cons in Hok as [Hw Hws].
  destruct (escaped (_worker_pass w worker_id p)) as [e|] eqn:He.
  - apply worker_pass_escape in He. congruence.
  - simpl. apply IH.
    destruct (worker_pass_frame w worker_id p) as [-> _]. exact Hws.
Qed.

End ProcessFileFacts.

(* ------------------------------------------------------------------ *)
(** ** Facts about the event handler *)

Section HandlerFacts.

Import WatchFolderProcessor WatchFolderEvents.

Lemma should_process_processed w h path :
  path ∈ WatchFolderHandler.processed_files h ->
  WatchFolderHandler._should_process w h path = false.
Proof.
  intros Hin. unfold WatchFolderHandler._should_process.
  rewrite bool_decide_eq_true_2 by exact Hin. reflexivity.
Qed.

Lemma should_process_fresh w h path :
  path ∉ WatchFolderHandler.processed_files h ->
  supported path ->
  fst (validate_audio_file w path) = true ->
  WatchFolderHandler._should_process w h path = true.
Proof.
  intros Hnot Hext Hvalid. unfold WatchFolderHandler._should_process.
  rewrite bool_decide_eq_false_2 by exact Hnot.
  rewrite bool_decide_eq_true_2 by exact Hext. simpl.
  destruct (validate_audio_file w path) as [valid err]. simpl in Hvalid.
  rewrite Hvalid. reflexivity.
Qed.

Lemma on_created_processed w h event p :
  src_path event ∈ WatchFolderHandler.processed_files h ->
  on_created w h event p = p.
Proof.
  intros Hin. unfold on_created.
  rewrite (should_process_processed _ _ _ Hin). destruct (is_directory event); reflexivity.
Qed.

Lemma on_modified_processed w h event p :
  src_path event ∈ WatchFolderHandler.processed_files h ->
  on_modified w h event p = p.
Proof.
  intros Hin. unfold on_modified.
  rewrite (should_process_processed _ _ _ Hin). destruct (is_directory event); reflexivity.
Qed.


(** [enqueue_file] with room: the task goes on the queue. *)
Lemma enqueue_file_room w path priority p :
  ProcessingQueue.size (queue p) < max_queue_size (config p) ->
  enqueued_at (priority_value priority) path p (snd (enqueue_file w path priority p))
  /\ fst (enqueue_file w path priority p) = true.
Proof.
  intros Hroom. unfold enqueue_file.
  replace (_ >=? _) with false by (symmetry; rewrite Z.geb_leb; apply Z.leb_gt; lia).
  simpl. split; [|reflexivity]. eexists. split; [|reflexivity]. reflexivity.
Qed.

Lemma enqueue_file_handlers w path priority p :
  handlers (snd (enqueue_file w path priority p)) = handlers p.
Proof. unfold enqueue_file. destruct (_ >=? _); reflexivity. Qed.

Lemma deliver_handlers w folder kind event p :
  handlers (deliver w folder kind event p) = handlers p.
Proof.
  unfold deliver.
  destruct (handlers p !! folder) as [h|]; [|reflexivity].
  destruct kind; unfold on_created, on_modified;
    repeat case_match; rewrite ?enqueue_file_handlers; reflexivity.
Qed.

Lemma mark_processed_on_record at_time path h :
  on_record h -> on_record (WatchFolderHandler.mark_processed at_time path h).
Proof.
  intros Hh path'. unfold WatchFolderHandler.mark_processed. simpl.
  destruct (decide (path = path')) as [<- | Hne].
  - intros _. set_solver.
  - rewrite lookup_insert_ne by exact Hne. intros H%Hh. set_solver.
Qed.

(** The handlers a worker pass leaves: those it found, all of which have
    marked the file of the task if it was processed with success. *)
Lemma worker_pass_handlers w worker_id p :
  handlers (after (_worker_pass w worker_id p)) = handlers p
  \/ exists path, handlers (after (_worker_pass w worker_id p)) = marked w path (handlers p).
Proof.
  unfold _worker_pass.
  destruct (ProcessingQueue.dequeue (queue p)) as [[task|] q']; [|left; reflexivity].
  destruct (process_file_cases w task (with_queue q' p)) as (_ & _ & _ & _ & H).
  destruct (process_file w task (with_queue q' p)) as [r p1]. simpl in *.
  destruct H as [(Hh & _) | (Hh & _)]; [left | right; exists (file_path task)];
    destruct (_log_result _ _ _ _); simpl; exact Hh.
Qed.

Lemma perform_on_record a p p' :
  (forall folder h, handlers p !! folder = Some h -> on_record h) ->
  perform a p = Some p' ->
  forall folder h, handlers p' !! folder = Some h -> on_record h.
Proof.
  intros Hinv Hp folder h.
  destruct a as [w f|w path priority|w f kind event| | |w worker_id]; simpl in Hp.
  - unfold add_watch_folder in Hp.
    assert (Hcase : p' = p
                    \/ p' = with_handlers (<[ f := WatchFolderHandler.init ]> (handlers p)) p).
    { repeat case_match; simplify_eq; auto. }
    destruct Hcase as [-> | ->]; [apply Hinv |]. simpl.
    destruct (decide (f = folder)) as [-> | Hne].
    + rewrite lookup_insert_eq. intros [= <-] path [t Ht]. simpl in Ht.
      rewrite lookup_empty in Ht. discriminate.
    + rewrite lookup_insert_ne by exact Hne. apply Hinv.
  - injection Hp as <-. rewrite enqueue_file_handlers. apply Hinv.
  - injection Hp as <-. rewrite deliver_handlers. apply Hinv.
  - injection Hp as <-. apply Hinv.
  - injection Hp as <-. apply Hinv.
  - destruct (running p); [|discriminate]. injection Hp as <-.
    destruct (worker_pass_handlers w worker_id p) as [-> | [path ->]]; [apply Hinv |].
    rewrite marked_lookup.
    destruct (handlers p !! folder) as [h0|] eqn:Hh0; [|discriminate].
    intros [= <-]. apply mark_processed_on_record. eapply Hinv; eauto.
Qed.

Lemma run_on_record acts p p' :
  (forall folder h, handlers p !! folder = Some h -> on_record h) ->
  run acts p = Some p' ->
  forall folder h, handlers p' !! folder = Some h -> on_record h.
Proof.
  revert p. induction acts as [|a acts IH]; intros p Hinv; simpl.
  - intros [= <-]. exact Hinv.
  - destruct (perform a p) as [p1|] eqn:Hp; [|discriminate].
    apply IH. eapply perform_on_record; eauto.
Qed.

(** In every state a run reaches, a path with a time of processing on
    record is among the processed files of that handler. *)
Lemma reachable_on_record cfg acts p folder h :
  run acts (init cfg) = Some p ->
  handlers p !! folder = Some h ->
  on_record h.
Proof.
  intros Hrun. eapply run_on_record; [|exact Hrun].
  intros f h0. simpl. rewrite lookup_empty. discriminate.
Qed.

End HandlerFacts.

Section EventFacts.

Import WatchFolderProcessor WatchFolderEvents.

Lemma Qgtb_true a b : (b < a)%Q -> Qgtb a b = true.
Proof.
  intros Hlt. unfold Qgtb. destruct (Qle_bool a b) eqn:E; [|reflexivity].
  apply Qle_bool_iff in E. exfalso. exact (Qlt_not_le _ _ Hlt E).
Qed.

Lemma Qgtb_false a b : (a <= b)%Q -> Qgtb a b = false.
Proof.
  intros Hle. unfold Qgtb. apply Qle_bool_iff in Hle. rewrite Hle. reflexivity.
Qed.

Lemma priority_value_high : priority_value "high" = 0.
Proof. vm_compute. reflexivity. Qed.

Lemma priority_value_medium : priority_value "medium" = 1.
Proof. vm_compute. reflexivity. Qed.

(** A Created event for a fresh, supported and valid file is enqueued at
    high priority when the queue has room. *)
Lemma on_created_fresh w h event p :
  is_directory event = false ->
  src_path event ∉ WatchFolderHandler.processed_files h ->
  supported (src_path event) ->
  fst (validate_audio_file w (src_path event)) = true ->
  ProcessingQueue.size (queue p) < max_queue_size (config p) ->
  enqueued_at 0 (src_path event) p (on_created w h event p).
Proof.
  intros Hfile Hnot Hext Hvalid Hroom. unfold on_created.
  rewrite Hfile, (should_process_fresh _ _ _ Hnot Hext Hvalid).
  rewrite <- priority_value_high. apply enqueue_file_room, Hroom.
Qed.

(** A Modified event for a fresh, supported and valid file, read on the
    clock more than 60 seconds after the time on record for it (0 when
    there is none), is enqueued at medium priority when the queue has room. *)
Lemma on_modified_fresh w h event p :
  is_directory event = false ->
  src_path event ∉ WatchFolderHandler.processed_files h ->
  supported (src_path event) ->
  fst (validate_audio_file w (src_path event)) = true ->
  (60 < time_time w
        - default 0 (WatchFolderHandler.last_processed h !! src_path event))%Q ->
  ProcessingQueue.size (queue p) < max_queue_size (config p) ->
  enqueued_at 1 (src_path event) p (on_modified w h event p).
Proof.
  intros Hfile Hnot Hext Hvalid Hlate Hroom. unfold on_modified.
  rewrite Hfile, (should_process_fresh _ _ _ Hnot Hext Hvalid).
  rewrite (Qgtb_true _ _ Hlate).
  rewrite <- priority_value_medium. apply enqueue_file_room, Hroom.
Qed.

(** A Modified event read on the clock at most 60 seconds after the time on
    record is dropped. *)
Lemma on_modified_early w h event p :
  (time_time w
   - default 0 (WatchFolderHandler.last_processed h !! src_path event) <= 60)%Q ->
  on_modified w h event p = p.
Proof.
  intros Hearly. unfold on_modified. rewrite (Qgtb_false _ _ Hearly).
  destruct (is_directory event); [reflexivity |].
  destruct (WatchFolderHandler._should_process w h (src_path event)); reflexivity.
Qed.

End EventFacts.

Section MarkedFacts.

Import WatchFolderProcessor.



End MarkedFacts.


(** C5 (debounce).  In a state a run has reached, take a Modified event for
    the file [P], delivered to the handler of a folder.  If the handler has a
    time of processing on record for [P], then [P] is among its processed
    files and nothing is enqueued, whenever the event arrives: less than 60
    seconds after that time as well as later.  If [P] is not among the
    processed files there is no time on record for it, and the test compares
    the reading of the clock itself with 60: the event is dropped when the
    clock reads at most 60, and it is enqueued, at medium priority, when [P]
    is supported and valid, the clock reads more than 60 and the queue has
    room. *)
Theorem modified_event_debounce (cfg : Config) (acts : list Action)
    (p : WatchFolderProcessor.t) (w : World) (folder : string)
    (h : WatchFolderHandler.t) (event : Event) :
  run acts (WatchFolderProcessor.init cfg) = Some p ->
  WatchFolderProcessor.handlers p !! folder = Some h ->
  is_directory event = false ->
  let P := src_path event in
  let p' := WatchFolderEvents.deliver w folder WatchFolderEvents.Modified event p in
  (forall t,
      WatchFolderHandler.last_processed h !! P = Some t ->
      P ∈ WatchFolderHandler.processed_files h /\ p' = p)
  /\ (P ∈ WatchFolderHandler.processed_files h -> p' = p)
  /\ (P ∉ WatchFolderHandler.processed_files h ->
      WatchFolderHandler.last_processed h !! P = None
      /\ ((time_time w <= 60)%Q -> p' = p)
      /\ (supported P ->
          fst (validate_audio_file w P) = true ->
          (60 < time_time w)%Q ->
          ProcessingQueue.size (WatchFolderProcessor.queue p)
          < max_queue_size (WatchFolderProcessor.config p) ->
          enqueued_at 1 P p p')).
Proof.
  intros Hrun Hh Hfile P p'.
  subst p'. unfold WatchFolderEvents.deliver. rewrite Hh.
  pose proof (reachable_on_record _ _ _ _ _ Hrun Hh) as Hrec.
  split.
  { intros t Ht. assert (Hin : P ∈ WatchFolderHandler.processed_files h).
    { apply Hrec. exists t. exact Ht. }
    split; [exact Hin | apply on_modified_processed; exact Hin]. }
  split; [apply on_modified_processed |].
  intros Hnot.
  assert (Hnone : WatchFolderHandler.last_processed h !! P = None).
  { destruct (WatchFolderHandler.last_processed h !! P) as [t|] eqn:Ht; [|reflexivity].
    exfalso. apply Hnot, Hrec. exists t. exact Ht. }
  split; [exact Hnone |].
  split.
  - intros Hearly. apply on_modified_early. subst P. unfold timestamp in *.
    rewrite Hnone. simpl. unfold Qminus. rewrite Qplus_0_r. exact Hearly.
  - intros Hext Hvalid Hlate Hroom.
    apply on_modified_fresh; try assumption.
    subst P. unfold timestamp in *. rewrite Hnone. simpl.
    unfold Qminus. rewrite Qplus_0_r. exact Hlate.
Qed.

(** C6 (Created events).  A Created event for a file that is supported and
    valid and not among the handler's processed files is enqueued at high
    priority when the queue has room, whatever the clock reads and whatever
    times of processing are on record: no cooldown applies.  A Created
    event for a file among the processed files is dropped, and so is one
    that finds the queue full. *)
Theorem created_event_admission (w : World) (h : WatchFolderHandler.t)
    (event : Event) (p : WatchFolderProcessor.t) :
  is_directory event = false ->
  let P := src_path event in
  (P ∉ WatchFolderHandler.processed_files h ->
   supported P ->
   fst (validate_audio_file w P) = true ->
   ProcessingQueue.size (WatchFolderProcessor.queue p)
   < max_queue_size (WatchFolderProcessor.config p) ->
   enqueued_at 0 P p (WatchFolderEvents.on_created w h event p))
  /\ (forall times,
        WatchFolderEvents.on_created w
          (WatchFolderHandler.mk (WatchFolderHandler.processed_files h) times) event p
        = WatchFolderEvents.on_created w h event p)
  /\ (P ∈ WatchFolderHandler.processed_files h ->
      WatchFolderEvents.on_created w h event p = p)
  /\ (ProcessingQueue.size (WatchFolderProcessor.queue p)
      >= max_queue_size (WatchFolderProcessor.config p) ->
      WatchFolderEvents.on_created w h event p = p).
Proof.
  intros Hfile P.
  split; [intros; apply on_created_fresh; assumption |].
  split; [reflexivity |].
  split; [apply on_created_processed |].
  intros Hfull. unfold WatchFolderEvents.on_created. rewrite Hfile.
  destruct (WatchFolderHandler._should_process w h (src_path event)); [|reflexivity].
  unfold WatchFolderProcessor.enqueue_file.
  replace (_ >=? _) with true by (symmetry; apply Z.geb_le; lia).
  reflexivity.
Qed.

(* ------------------------------------------------------------------ *)
(** ** The sequence numbers on the queue *)

Section QueueInvariant.

Import ProcessingQueue Order WatchFolderProcessor.

Lemma enqueue_fresh item n q :
  fresh_ids q -> fresh_ids (enqueue item n q).
Proof.
  intros [Hnd Hle]. unfold fresh_ids, enqueue, put. simpl.
  rewrite map_app. simpl. split.
  - apply NoDup_app. split; [exact Hnd |]. split; [|apply NoDup_singleton].
    intros id Hin Hnew. apply list_elem_of_singleton in Hnew. subst id.
    apply list_elem_of_fmap in Hin as (e & He & Hin).
    rewrite Forall_forall in Hle. specialize (Hle _ Hin). unfold entry_id in He at 1.
    simpl in He. lia.
  - apply Forall_app. split.
    + eapply Forall_impl; [exact Hle |]. simpl. intros e He. lia.
    + constructor; [unfold entry_id; simpl; lia | constructor].
Qed.

Lemma dequeue_fresh q :
  fresh_ids q -> fresh_ids (snd (dequeue q)).
Proof.
  intros [Hnd Hle]. unfold dequeue.
  destruct (ProcessingQueue.queue q) as [|x l] eqn:Hq; simpl.
  { split; rewrite Hq; assumption. }
  destruct (select x l) as [[[pr id] item] rest] eqn:Hsel. simpl.
  pose proof (select_perm _ _ _ _ Hsel) as Hperm.
  unfold fresh_ids. simpl. split.
  - rewrite Hperm in Hnd. simpl in Hnd. apply NoDup_cons in Hnd. apply Hnd.
  - rewrite Hperm in Hle. apply Forall_cons in Hle. apply Hle.
Qed.

Lemma enqueue_file_fresh w path priority p :
  fresh_ids (queue p) -> fresh_ids (queue (snd (enqueue_file w path priority p))).
Proof.
  intros Hf. unfold enqueue_file. destruct (_ >=? _); simpl; [exact Hf |].
  apply enqueue_fresh, Hf.
Qed.

Lemma perform_fresh a p p' :
  fresh_ids (queue p) -> perform a p = Some p' -> fresh_ids (queue p').
Proof.
  intros Hf Hp.
  destruct a as [w f|w path priority|w f kind event| | |w worker_id]; simpl in Hp.
  - unfold add_watch_folder in Hp. repeat case_match; simplify_eq; exact Hf.
  - injection Hp as <-. apply enqueue_file_fresh, Hf.
  - injection Hp as <-. unfold WatchFolderEvents.deliver.
    destruct (handlers p !! f); [|exact Hf].
    destruct kind; unfold WatchFolderEvents.on_created, WatchFolderEvents.on_modified;
      repeat case_match; try exact Hf; apply enqueue_file_fresh, Hf.
  - injection Hp as <-. exact Hf.
  - injection Hp as <-. exact Hf.
  - destruct (running p); [|discriminate]. injection Hp as <-.
    destruct (ProcessingQueue.dequeue (queue p)) as [[task|] q'] eqn:Hdq.
    + destruct (worker_pass_completes w worker_id p task q' Hdq) as [-> _].
      pose proof (dequeue_fresh _ Hf) as Hq. rewrite Hdq in Hq. exact Hq.
    + rewrite (worker_pass_idle _ _ _ _ Hdq). exact Hf.
Qed.

(** In every state a run reaches, no two entries of the queue carry the
    same sequence number, and none is above the counter. *)
Lemma reachable_ids_distinct cfg acts p :
  run acts (init cfg) = Some p -> fresh_ids (queue p).
Proof.
  assert (Hgen : forall p0, fresh_ids (queue p0) -> run acts p0 = Some p ->
                            fresh_ids (queue p)).
  { induction acts as [|a acts IH]; intros p0 Hf; simpl.
    - intros [= <-]. exact Hf.
    - destruct (perform a p0) as [p1|] eqn:Hp; [|discriminate].
      apply IH. eapply perform_fresh; eauto. }
  apply Hgen. split; constructor.
Qed.


End QueueInvariant.

(* ------------------------------------------------------------------ *)
(** ** The statements at concrete inputs *)

(** Four requests made on a fresh processor come out by rank, and in the
    order of arrival within a rank. *)
Lemma dequeue_order_witness :
  ProcessingQueue.queue
    (WatchFolderProcessor.queue (WatchFolderProcessor.init default_config)) = []
  /\ map file_path
       (ProcessingQueue.dequeue_all
          (WatchFolderProcessor.queue
             (enqueue_files Sample.requests (WatchFolderProcessor.init default_config))))
     = ["c.wav"; "a.wav"; "d.wav"; "b.wav"].
Proof.
  split; [reflexivity |].
  destruct (dequeue_order_is_stable_sort Sample.requests
              (WatchFolderProcessor.init default_config) eq_refl) as [Horder _].
  rewrite Horder. vm_compute. reflexivity.
Defined.

(** With room for two, A and B fill the queue and C is refused. *)
Lemma enqueue_file_full_witness :
  let w := Sample.calm 0%Q in
  let p := enqueue_files [(w, "A", Medium); (w, "B", Medium)]
             (WatchFolderProcessor.init (Sample.cfg 2 false)) in
  ProcessingQueue.size (WatchFolderProcessor.queue p)
  = max_queue_size (WatchFolderProcessor.config p)
  /\ WatchFolderProcessor.enqueue_file w "C" "high" p = (false, p).
Proof.
  intros w p. split; [reflexivity |].
  apply (enqueue_file_full_rejects w "C" "high" p). reflexivity.
Defined.

(** 'Urgent' is no priority the map knows: on the empty queue the call is
    answered [True] and its task is queued under the key (1, 1), the key of
    a medium task, with 'Urgent' as its priority string. *)
Lemma unrecognised_priority_witness :
  let p := WatchFolderProcessor.init default_config in
  let given := WatchFolderProcessor.enqueue_file (Sample.calm 0%Q) Sample.song "Urgent" p in
  Str.lower "Urgent" <> "high"
  /\ Str.lower "Urgent" <> "medium"
  /\ Str.lower "Urgent" <> "low"
  /\ WatchFolderProcessor.priority_value "Urgent" = 1
  /\ fst given = true
  /\ ProcessingQueue.queue (WatchFolderProcessor.queue (snd given))
     = [ (1, 1, {| file_path := Sample.song;
                   priority := "Urgent";
                   enqueued_time := 0%Q;
                   status := "queued" |}) ].
Proof.
  intros p given.
  assert (Hh : Str.lower "Urgent" <> "high") by (vm_compute; discriminate).
  assert (Hm : Str.lower "Urgent" <> "medium") by (vm_compute; discriminate).
  assert (Hl : Str.lower "Urgent" <> "low") by (vm_compute; discriminate).
  split; [exact Hh |]. split; [exact Hm |]. split; [exact Hl |].
  pose proof (unrecognised_priority_is_medium (Sample.calm 0%Q) Sample.song "Urgent"
                p Hh Hm Hl) as Hclaim.
  cbv zeta in Hclaim. destruct Hclaim as (Hone & Hroom & _).
  split; [exact Hone |].
  assert (Hlt : ProcessingQueue.size (WatchFolderProcessor.queue p)
                < max_queue_size (WatchFolderProcessor.config p))
    by (vm_compute; reflexivity).
  subst given. rewrite (Hroom Hlt). split; reflexivity.
Defined.

(** One task processed with success and one that failed: two processed,
    one failed. *)
Lemma stats_witness :
  exists p,
    run (Sample.song_processed
         ++ [EnqueueFile (Sample.calm 5%Q) "in/other.wav" "low";
             WorkerPass Sample.file_gone 1])%list
      (WatchFolderProcessor.init (Sample.plain 100 false)) = Some p
    /\ WatchFolderProcessor.processed (WatchFolderProcessor.get_stats (fun _ => true) p) = 2
    /\ WatchFolderProcessor.failed (WatchFolderProcessor.get_stats (fun _ => true) p) = 1.
Proof.
  destruct (run (Sample.song_processed
                 ++ [EnqueueFile (Sample.calm 5%Q) "in/other.wav" "low";
                     WorkerPass Sample.file_gone 1])%list
              (WatchFolderProcessor.init (Sample.plain 100 false))) as [p|] eqn:Hrun.
  - exists p. split; [reflexivity |].
    destruct (stats_count_completed_tasks _ _ _ (fun _ => true) Hrun)
      as (_ & Hproc & Hfail & _).
    rewrite Hproc, Hfail. vm_compute. split; reflexivity.
  - vm_compute in Hrun. discriminate.
Defined.

(** The file has vanished: the task fails and the queue is left empty. *)
Lemma failed_task_witness :
  exists p task q',
    run Sample.song_queued (WatchFolderProcessor.init default_config) = Some p
    /\ ProcessingQueue.dequeue (WatchFolderProcessor.queue p) = (Some task, q')
    /\ WatchFolderProcessor.queue
         (WatchFolderProcessor.after
            (WatchFolderProcessor._worker_pass Sample.file_gone 0 p)) = q'
    /\ ProcessingQueue.queue q' = [].
Proof.
  destruct (run Sample.song_queued (WatchFolderProcessor.init default_config))
    as [p|] eqn:Hrun; [|vm_compute in Hrun; discriminate].
  destruct (ProcessingQueue.dequeue (WatchFolderProcessor.queue p)) as [[task|] q'] eqn:Hdq.
  - exists p, task, q'. split; [reflexivity |]. split; [exact Hdq |].
    split; [apply (failed_task_is_not_requeued Sample.file_gone 0 p task q' Hdq) |].
    vm_compute in Hrun. injection Hrun as <-. vm_compute in Hdq.
    injection Hdq as _ <-. reflexivity.
  - vm_compute in Hrun. injection Hrun as <-. vm_compute in Hdq. discriminate.
Defined.

(** An empty queue answers at once; a queue with one entry returns it. *)
Lemma dequeue_witness :
  let one := ProcessingQueue.enqueue Sample.song_task 0 ProcessingQueue.init in
  ProcessingQueue.queue ProcessingQueue.init = []
  /\ ProcessingQueue.dequeue ProcessingQueue.init = (None, ProcessingQueue.init)
  /\ ProcessingQueue.queue one <> []
  /\ exists e q',
       ProcessingQueue.dequeue one = (Some (ProcessingQueue.entry_item e), q')
       /\ e ∈ ProcessingQueue.queue one
       /\ Forall (Order.key_le e) (ProcessingQueue.queue one)
       /\ ProcessingQueue.size q' = ProcessingQueue.size one - 1.
Proof.
  intros one.
  destruct (dequeue_answers_at_once ProcessingQueue.init) as [Hempty _].
  destruct (dequeue_answers_at_once one) as [_ Hfull].
  split; [reflexivity |].
  split; [apply Hempty; reflexivity |].
  split; [discriminate |].
  apply Hfull. discriminate.
Defined.


(** The song was processed with success at time 0: a Modified event for it
    30 seconds later is dropped. *)
Lemma modified_event_witness :
  exists p h,
    run Sample.song_processed (WatchFolderProcessor.init (Sample.plain 100 false)) = Some p
    /\ WatchFolderProcessor.handlers p !! "in" = Some h
    /\ is_directory Sample.song_event = false
    /\ WatchFolderHandler.last_processed h !! Sample.song = Some 0%Q
    /\ WatchFolderEvents.deliver (Sample.calm 30%Q) "in" WatchFolderEvents.Modified
         Sample.song_event p = p.
Proof.
  destruct (run Sample.song_processed (WatchFolderProcessor.init (Sample.plain 100 false)))
    as [p|] eqn:Hrun; [|vm_compute in Hrun; discriminate].
  destruct (WatchFolderProcessor.handlers p !! "in") as [h|] eqn:Hh.
  - exists p, h. split; [reflexivity |]. split; [exact Hh |]. split; [reflexivity |].
    assert (Ht : WatchFolderHandler.last_processed h !! Sample.song = Some 0%Q).
    { vm_compute in Hrun. injection Hrun as <-. vm_compute in Hh. injection Hh as <-.
      vm_compute. reflexivity. }
    split; [exact Ht |].
    destruct (modified_event_debounce _ _ _ (Sample.calm 30%Q) _ _ Sample.song_event
                Hrun Hh eq_refl) as (Hrecorded & _).
    apply (Hrecorded _ Ht).
  - vm_compute in Hrun. injection Hrun as <-. vm_compute in Hh. discriminate.
Defined.

(** A Created event for a fresh song is enqueued at high priority. *)
Lemma created_event_witness :
  is_directory Sample.song_event = false
  /\ enqueued_at 0 Sample.song (WatchFolderProcessor.init default_config)
       (WatchFolderEvents.on_created (Sample.calm 0%Q) WatchFolderHandler.init
          Sample.song_event (WatchFolderProcessor.init default_config)).
Proof.
  split; [reflexivity |].
  destruct (created_event_admission (Sample.calm 0%Q) WatchFolderHandler.init
              Sample.song_event (WatchFolderProcessor.init default_config) eq_refl)
    as (Hfresh & _).
  apply Hfresh.
  - apply (bool_decide_eq_false_1 _). vm_compute. reflexivity.
  - apply (bool_decide_eq_true_1 _). vm_compute. reflexivity.
  - reflexivity.
  - vm_compute. reflexivity.
Defined.

(* ------------------------------------------------------------------ *)
(** ** Where the code departs from the specification *)

(** C2, at a concrete input.  With [remove_artifacts] switched off and
    [auto_delete_original] set, the song is processed and its output
    written, and then the removal of the original is denied.  The exception
    is caught and its message recorded, but the result stays marked
    successful, and the worker counts no failure. *)
Theorem removal_failure_reported_as_success :
  exists p result,
    run Sample.song_queued (WatchFolderProcessor.init (Sample.plain 100 true)) = Some p
    /\ remove_artifacts (WatchFolderProcessor.config p) = false
    /\ auto_delete_original (WatchFolderProcessor.config p) = true
    /\ faithful Sample.removal_denied
    /\ unlink Sample.removal_denied Sample.song = Raises "[Errno 13] Permission denied"
    /\ results [WorkerPass Sample.removal_denied 0] p = [result]
    /\ Result.success result = true
    /\ Result.errors result = ["[Errno 13] Permission denied"]
    /\ Result.original_deleted result = None
    /\ let p' := WatchFolderProcessor.after
                   (WatchFolderProcessor._worker_pass Sample.removal_denied 0 p) in
       Stats.processed_files (WatchFolderProcessor.stats p') = 1
       /\ Stats.failed_files (WatchFolderProcessor.stats p') = 0.
Proof.
  eexists. eexists.
  split; [vm_compute; reflexivity |].
  split; [reflexivity |]. split; [reflexivity |].
  split; [intros audio intensity; reflexivity |].
  split; [reflexivity |].
  split; [vm_compute; reflexivity |].
  vm_compute. repeat split; reflexivity.
Qed.


(** A folder added again gets a fresh handler, which has forgotten the
    files processed: the song was processed with success, the folder is
    added again, and a Created event for the song is enqueued. *)
Lemma readded_folder_forgets :
  exists p,
    run (Sample.song_processed
         ++ [ AddWatchFolder (Sample.calm 10%Q) "in";
              Deliver (Sample.calm 20%Q) "in" WatchFolderEvents.Created Sample.song_event ])%list
      (WatchFolderProcessor.init (Sample.plain 100 false)) = Some p
    /\ map Result.success
         (results Sample.song_processed (WatchFolderProcessor.init (Sample.plain 100 false)))
       = [true]
    /\ queued_for Sample.song p = 1%nat.
Proof.
  eexists. split; [vm_compute; reflexivity |]. split; vm_compute; reflexivity.
Qed.

(** C5, as stated, fails: with [remove_artifacts] switched off the song was
    processed with success at time 0, and a Modified event for it at time
    65, after the 60 seconds have passed, enqueues nothing. *)
Lemma modified_after_cooldown_dropped :
  exists p,
    run Sample.song_processed (WatchFolderProcessor.init (Sample.plain 100 false)) = Some p
    /\ faithful (Sample.calm 0%Q)
    /\ map Result.success
         (results Sample.song_processed (WatchFolderProcessor.init (Sample.plain 100 false)))
       = [true]
    /\ processed_at "in" Sample.song 0%Q p
    /\ supported Sample.song
    /\ fst (validate_audio_file (Sample.calm 65%Q) Sample.song) = true
    /\ WatchFolderEvents.deliver (Sample.calm 65%Q) "in" WatchFolderEvents.Modified
         Sample.song_event p = p
    /\ ~ enqueued_at 1 Sample.song p
           (WatchFolderEvents.deliver (Sample.calm 65%Q) "in" WatchFolderEvents.Modified
              Sample.song_event p).
Proof.
  eexists. split; [vm_compute; reflexivity |].
  split; [intros audio intensity; reflexivity |].
  split; [vm_compute; reflexivity |].
  split.
  { eexists. split; [vm_compute; reflexivity |].
    split; [apply (bool_decide_eq_true_1 _); vm_compute; reflexivity |].
    vm_compute. reflexivity. }
  split; [apply (bool_decide_eq_true_1 _); vm_compute; reflexivity |].
  split; [reflexivity |].
  split; [vm_compute; reflexivity |].
  intros (item & _ & Hq). vm_compute in Hq. discriminate.
Qed.

(** C6, as stated, fails, in two ways.  With [remove_artifacts] switched
    off the song was processed with success at time 0, and a Created event
    for it at time 30 enqueues nothing.  And with room for one task only, a
    Created event for a fresh, supported and valid file that arrives when
    the queue holds a task enqueues nothing either. *)
Lemma created_after_processing_dropped :
  (exists p,
      run Sample.song_processed (WatchFolderProcessor.init (Sample.plain 100 false)) = Some p
      /\ faithful (Sample.calm 0%Q)
      /\ map Result.success
           (results Sample.song_processed
              (WatchFolderProcessor.init (Sample.plain 100 false)))
         = [true]
      /\ processed_at "in" Sample.song 0%Q p
      /\ supported Sample.song
      /\ fst (validate_audio_file (Sample.calm 30%Q) Sample.song) = true
      /\ WatchFolderEvents.deliver (Sample.calm 30%Q) "in" WatchFolderEvents.Created
           Sample.song_event p = p
      /\ ~ enqueued_at 0 Sample.song p
             (WatchFolderEvents.deliver (Sample.calm 30%Q) "in" WatchFolderEvents.Created
                Sample.song_event p))
  /\ (exists p,
        run [ AddWatchFolder (Sample.calm 0%Q) "in";
              Deliver (Sample.calm 0%Q) "in" WatchFolderEvents.Created Sample.song_event ]
          (WatchFolderProcessor.init (Sample.cfg 1 false)) = Some p
        /\ ProcessingQueue.size (WatchFolderProcessor.queue p) = 1
        /\ supported "in/other.wav"
        /\ fst (validate_audio_file (Sample.calm 1%Q) "in/other.wav") = true
        /\ (forall h, WatchFolderProcessor.handlers p !! "in" = Some h ->
                      "in/other.wav" ∉ WatchFolderHandler.processed_files h)
        /\ WatchFolderEvents.deliver (Sample.calm 1%Q) "in" WatchFolderEvents.Created
             (mkEvent false "in/other.wav") p = p
        /\ queued_for "in/other.wav"
             (WatchFolderEvents.deliver (Sample.calm 1%Q) "in" WatchFolderEvents.Created
                (mkEvent false "in/other.wav") p) = 0%nat).
Proof.
  split.
  - eexists. split; [vm_compute; reflexivity |].
    split; [intros audio intensity; reflexivity |].
    split; [vm_compute; reflexivity |].
    split.
    { eexists. split; [vm_compute; reflexivity |].
      split; [apply (bool_decide_eq_true_1 _); vm_compute; reflexivity |].
      vm_compute. reflexivity. }
    split; [apply (bool_decide_eq_true_1 _); vm_compute; reflexivity |].
    split; [reflexivity |].
    split; [vm_compute; reflexivity |].
    intros (item & _ & Hq). vm_compute in Hq. discriminate.
  - eexists. split; [vm_compute; reflexivity |].
    split; [vm_compute; reflexivity |].
    split; [apply (bool_decide_eq_true_1 _); vm_compute; reflexivity |].
    split; [reflexivity |].
    split.
    { intros h Hh. vm_compute in Hh. injection Hh as <-.
      apply (bool_decide_eq_false_1 _). vm_compute. reflexivity. }
    split; vm_compute; reflexivity.
Qed.

(** C7, as stated, fails: the file of the only queued task has vanished
    when a worker comes to load it.  The task fails, the queue is empty
    afterwards, and further passes find nothing to do: the task was tried
    once. *)
Lemma transient_failure_not_retried :
  exists p result,
    run Sample.song_queued (WatchFolderProcessor.init default_config) = Some p
    /\ results [ WorkerPass Sample.file_gone 0;
                 WorkerPass (Sample.calm 1%Q) 0;
                 WorkerPass (Sample.calm 2%Q) 0 ] p = [result]
    /\ Result.success result = false
    /\ Result.errors result = ["[Errno 2] No such file or directory"]
    /\ ProcessingQueue.queue
         (WatchFolderProcessor.queue
            (WatchFolderProcessor.after
               (WatchFolderProcessor._worker_pass Sample.file_gone 0 p))) = [].
Proof.
  eexists. eexists.
  split; [vm_compute; reflexivity |].
  split; [vm_compute; reflexivity |].
  vm_compute. repeat split; reflexivity.
Qed.

(** C8, as stated, fails: on the empty queue [dequeue] answers at once, and
    it is the worker that waits, by a sleep of half a second of its own,
    before it polls the queue again. *)
Lemma worker_polls_with_sleep :
  let p := WatchFolderProcessor.start_workers (WatchFolderProcessor.init default_config) in
  ProcessingQueue.dequeue (WatchFolderProcessor.queue p)
  = (None, WatchFolderProcessor.queue p)
  /\ WatchFolderProcessor.effects
       (WatchFolderProcessor._worker_loop
          [Sample.calm 0%Q; Sample.calm 0%Q; Sample.calm 0%Q] 0 p)
     = [Slept (1 # 2); Slept (1 # 2); Slept (1 # 2)].
Proof.
  split; vm_compute; reflexivity.
Qed.

Section MoreProcessFileFacts.

Import WatchFolderProcessor.

(** The statements inside [try] never replace the task, the path or the
    start time of the result. *)
Lemma try_body_keeps w cfg path r hs :
  let r' := fst (snd (try_body w cfg path (r, hs))) in
  Result.task r' = Result.task r
  /\ Result.file_path r' = Result.file_path r
  /\ Result.start_time r' = Result.start_time r.
Proof.
  unfold try_body.
  destruct (validate_audio_file w path) as [valid err]. destruct valid; simpl.
  - unfold mbind, try_bind, bind, call, update, ret, mark_handlers. simpl.
    repeat (case_match; simpl; simplify_eq); repeat split; reflexivity.
  - repeat split; reflexivity.
Qed.

(** The output path is set only after the result is marked successful. *)
Lemma try_body_output w cfg path r hs :
  Result.success r = false ->
  Result.output_path r = None ->
  Result.success (fst (snd (try_body w cfg path (r, hs)))) = false ->
  Result.output_path (fst (snd (try_body w cfg path (r, hs)))) = None.
Proof.
  intros Hs Ho. unfold try_body.
  destruct (validate_audio_file w path) as [valid err]. destruct valid; simpl.
  - unfold mbind, try_bind, bind, call, update, ret, mark_handlers. simpl.
    repeat (case_match; simpl; simplify_eq); intros; simpl in *; first [assumption | congruence].
  - intros _. exact Ho.
Qed.

(** The result of [process_file] names the task it was given, and its
    times are the two readings of the clock. *)
Lemma process_file_task w task p :
  let result := fst (process_file w task p) in
  Result.task result = task
  /\ Result.file_path result = file_path task
  /\ Result.start_time result = time_start w
  /\ Result.end_time result = Some (time_end w)
  /\ Result.processing_time result = (time_end w - time_start w)%Q.
Proof.
  unfold process_file.
  match goal with
  | |- context [try_body w (config p) (file_path task) (?r0, handlers p)] =>
      pose proof (try_body_keeps w (config p) (file_path task) r0 (handlers p)) as Hk;
      destruct (try_body w (config p) (file_path task) (r0, handlers p)) as [o [r hs]]
  end.
  simpl in *. destruct Hk as (Ht & Hf & Hs).
  destruct o; simpl; rewrite ?Ht, ?Hf, ?Hs; repeat split; reflexivity.
Qed.

End MoreProcessFileFacts.

(* ------------------------------------------------------------------ *)
(** ** Further properties of the queue and of runs *)

Section RunFacts.

Import ProcessingQueue Order WatchFolderProcessor.

(** [enqueue_file] appends at most one entry and leaves the rest of the
    processor alone. *)
Lemma enqueue_file_extends w path priority p :
  let p' := snd (enqueue_file w path priority p) in
  config p' = config p
  /\ ((fst (enqueue_file w path priority p) = false /\ p' = p)
      \/ (fst (enqueue_file w path priority p) = true
          /\ size (queue p) < max_queue_size (config p)
          /\ ProcessingQueue.queue (queue p')
             = (ProcessingQueue.queue (queue p)
                ++ [(priority_value priority, task_id (queue p) + 1,
                     {| file_path := path; priority := priority;
                        enqueued_time := datetime_now w; status := "queued" |})])%list)).
Proof.
  unfold enqueue_file.
  destruct (size (queue p) >=? max_queue_size (config p)) eqn:Hfull; simpl.
  - split; [reflexivity |]. left. split; reflexivity.
  - split; [reflexivity |]. right. split; [reflexivity |].
    split; [|reflexivity].
    rewrite Z.geb_leb in Hfull. apply Z.leb_gt in Hfull. exact Hfull.
Qed.

(** An event leaves the processor as it is or makes one call of
    [enqueue_file]. *)
Lemma deliver_cases w folder kind event p :
  WatchFolderEvents.deliver w folder kind event p = p
  \/ exists priority,
       WatchFolderEvents.deliver w folder kind event p
       = snd (enqueue_file w (src_path event) priority p).
Proof.
  unfold WatchFolderEvents.deliver.
  destruct (handlers p !! folder) as [h|]; [|left; reflexivity].
  destruct kind; unfold WatchFolderEvents.on_created, WatchFolderEvents.on_modified;
    repeat case_match; eauto.
Qed.

(** The call of [enqueue_file] an event makes is the one of
    [handler_call]. *)
Lemma deliver_call w folder kind event p :
  WatchFolderEvents.deliver w folder kind event p
  = match handler_call w folder kind event p with
    | Some (file_path, priority) => snd (enqueue_file w file_path priority p)
    | None => p
    end.
Proof.
  unfold WatchFolderEvents.deliver, handler_call.
  destruct (handlers p !! folder) as [h|]; [|reflexivity].
  destruct kind; unfold WatchFolderEvents.on_created, WatchFolderEvents.on_modified;
    repeat case_match; simplify_eq; reflexivity.
Qed.

Lemma perform_config a p p' : perform a p = Some p' -> config p' = config p.
Proof.
  destruct a as [w f|w path priority|w f kind event| | |w worker_id]; simpl.
  - unfold add_watch_folder. intros H. repeat case_match; simplify_eq; reflexivity.
  - intros [= <-]. apply enqueue_file_extends.
  - intros [= <-]. destruct (deliver_cases w f kind event p) as [-> | [pr ->]];
      [reflexivity | apply enqueue_file_extends].
  - intros [= <-]. reflexivity.
  - intros [= <-]. reflexivity.
  - destruct (running p); [|discriminate]. intros [= <-].
    apply worker_pass_frame.
Qed.

Lemma run_config acts p p' : run acts p = Some p' -> config p' = config p.
Proof.
  revert p. induction acts as [|a acts IH]; intros p; simpl.
  - intros [= <-]. reflexivity.
  - destruct (perform a p) as [p1|] eqn:Hp; [|discriminate].
    intros Hrun. rewrite (IH _ Hrun). eapply perform_config; eauto.
Qed.

Lemma priority_value_range s : 0 <= priority_value s <= 2.
Proof.
  unfold priority_value, priority_map.
  destruct (decide (Str.lower s = "high")) as [-> | Hh]; [vm_compute; split; discriminate |].
  destruct (decide (Str.lower s = "medium")) as [-> | Hm]; [vm_compute; split; discriminate |].
  destruct (decide (Str.lower s = "low")) as [-> | Hl]; [vm_compute; split; discriminate |].
  rewrite !lookup_insert_ne by congruence.
  rewrite lookup_singleton_ne by congruence. simpl. lia.
Qed.

(** What an action does to the queue: nothing, or one entry more at the
    end, or the lowest entry taken out and its task completed. *)
Lemma perform_queue a p p' :
  perform a p = Some p' ->
  (queue p' = queue p /\ submitted a p = [] /\ completed a p = None)
  \/ (exists e, size (queue p) < max_queue_size (config p)
                /\ ProcessingQueue.queue (queue p')
                   = (ProcessingQueue.queue (queue p) ++ [e])%list
                /\ task_id (queue p') = task_id (queue p) + 1
                /\ entry_id e = task_id (queue p) + 1
                /\ 0 <= entry_priority e <= 2
                /\ submitted a p = [entry_item e]
                /\ completed a p = None)
  \/ (exists task r, ProcessingQueue.dequeue (queue p) = (Some task, queue p')
                     /\ completed a p = Some r
                     /\ Result.task r = task
                     /\ submitted a p = []).
Proof.
  assert (Hcall : forall w path priority,
    (queue (snd (enqueue_file w path priority p)) = queue p
     /\ answered_true w path priority p = [])
    \/ (exists e, size (queue p) < max_queue_size (config p)
          /\ ProcessingQueue.queue (queue (snd (enqueue_file w path priority p)))
             = (ProcessingQueue.queue (queue p) ++ [e])%list
          /\ task_id (queue (snd (enqueue_file w path priority p))) = task_id (queue p) + 1
          /\ entry_id e = task_id (queue p) + 1
          /\ 0 <= entry_priority e <= 2
          /\ answered_true w path priority p = [entry_item e])).
  { intros w path priority. unfold answered_true, enqueue_file.
    destruct (size (queue p) >=? max_queue_size (config p)) eqn:Hfull; simpl.
    - left. split; reflexivity.
    - right. eexists. rewrite Z.geb_leb in Hfull. apply Z.leb_gt in Hfull.
      split; [exact Hfull |]. unfold put.
      split; [reflexivity |]. split; [reflexivity |]. split; [reflexivity |].
      split; [apply priority_value_range |]. reflexivity. }
  destruct a as [w f|w path priority|w f kind event| | |w worker_id]; simpl.
  - unfold add_watch_folder. intros H. left.
    repeat case_match; simplify_eq; repeat split; reflexivity.
  - intros [= <-].
    destruct (Hcall w path priority) as [[Hq Hd] | (e & Hroom & Hq & Hid & He & Hpr & Hd)].
    + left. rewrite Hd. split; [exact Hq |]. split; reflexivity.
    + right. left. exists e. rewrite Hd. repeat split; try assumption; apply Hpr.
  - intros [= <-]. rewrite deliver_call.
    destruct (handler_call w f kind event p) as [[path pr]|].
    + destruct (Hcall w path pr)
        as [[Hq Hdrop] | (e & Hroom & Hq & Hid & He & Hpr & Hdrop)].
      * left. rewrite Hdrop. split; [exact Hq |]. split; reflexivity.
      * right. left. exists e. rewrite Hdrop. repeat split; try assumption; apply Hpr.
    + left. repeat split; reflexivity.
  - intros [= <-]. left. repeat split; reflexivity.
  - intros [= <-]. left. repeat split; reflexivity.
  - destruct (running p); [|discriminate]. intros [= <-].
    destruct (ProcessingQueue.dequeue (queue p)) as [[task|] q'] eqn:Hdq.
    + right. right. exists task. eexists.
      destruct (worker_pass_completes w worker_id p task q' Hdq) as [-> _].
      split; [reflexivity |]. split; [reflexivity |].
      split; [apply process_file_task | reflexivity].
    + left. rewrite (worker_pass_idle _ _ _ _ Hdq). repeat split; reflexivity.
Qed.

Lemma dequeue_shape q task q' :
  ProcessingQueue.dequeue q = (Some task, q') ->
  exists e, entry_item e = task
            /\ ProcessingQueue.queue q ≡ₚ e :: ProcessingQueue.queue q'
            /\ Forall (key_le e) (ProcessingQueue.queue q)
            /\ task_id q' = task_id q.
Proof.
  unfold ProcessingQueue.dequeue.
  destruct (ProcessingQueue.queue q) as [|x l]; [discriminate |]. simpl.
  destruct (select x l) as [[[pr id] item] rest] eqn:Hsel.
  intros [= <- <-]. exists (pr, id, item).
  pose proof (select_perm _ _ _ _ Hsel) as Hperm.
  destruct (select_least _ _ _ _ Hsel) as [Hx Hrest].
  split; [reflexivity |]. split; [exact Hperm |]. split; [|reflexivity].
  rewrite Hperm. constructor; [unfold key_le; lia | exact Hrest].
Qed.


End RunFacts.


Section RunInvariants.

Import ProcessingQueue Order WatchFolderProcessor.


Lemma perform_ranked a p p' :
  ranked (queue p) -> perform a p = Some p' -> ranked (queue p').
Proof.
  intros Hr Hp. unfold ranked in *.
  destruct (perform_queue _ _ _ Hp)
    as [(-> & _) | [(e & _ & -> & _ & _ & He & _) | (task & r & Hdq & _)]].
  - exact Hr.
  - apply Forall_app. split; [exact Hr | constructor; [exact He | constructor]].
  - destruct (dequeue_shape _ _ _ Hdq) as (e & _ & Hperm & _).
    rewrite Hperm in Hr. apply Forall_cons in Hr. apply Hr.
Qed.

Lemma run_ranked acts p p' :
  ranked (queue p) -> run acts p = Some p' -> ranked (queue p').
Proof.
  revert p. induction acts as [|a acts IH]; intros p Hr; simpl.
  - intros [= <-]. exact Hr.
  - destruct (perform a p) as [p1|] eqn:Hp; [|discriminate].
    apply IH. eapply perform_ranked; eauto.
Qed.

(** Whatever a run does, the tasks on the queue together with the tasks
    completed are the tasks that were on the queue together with those
    submitted. *)
Lemma run_conserves_tasks acts p p' :
  run acts p = Some p' ->
  (map entry_item (ProcessingQueue.queue (queue p'))
   ++ map Result.task (results acts p))%list
  ≡ₚ (map entry_item (ProcessingQueue.queue (queue p)) ++ all_submitted acts p)%list.
Proof.
  revert p. induction acts as [|a acts IH]; intros p; simpl.
  - intros [= <-]. reflexivity.
  - destruct (perform a p) as [p1|] eqn:Hp; [|discriminate].
    intros Hrun. specialize (IH _ Hrun).
    destruct (perform_queue _ _ _ Hp)
      as [(Hq & -> & ->) | [(e & _ & Hq & _ & _ & _ & -> & ->) | (task & r & Hdq & -> & Ht & ->)]].
    + rewrite <- Hq. exact IH.
    + rewrite IH, Hq, map_app. simpl. rewrite <- app_assoc. reflexivity.
    + destruct (dequeue_shape _ _ _ Hdq) as (e & He & Hperm & _).
      simpl. rewrite Hperm. simpl. rewrite He, Ht.
      rewrite <- Permutation_middle. f_equiv. exact IH.
Qed.

End RunInvariants.


(** X4.  No task is lost and none is processed twice.  Over the runs, in
    which a call of [enqueue_file] and a pass of a worker are one step each:
    at every point of a run, the tasks of the calls of [enqueue_file]
    answered [True] so far, made directly or by an event handler, are,
    counted with multiplicity, the tasks still on the queue together with
    the tasks of the results completed so far. *)
Theorem tasks_neither_lost_nor_duplicated (cfg : Config) (acts : list Action)
    (p : WatchFolderProcessor.t) :
  run acts (WatchFolderProcessor.init cfg) = Some p ->
  all_submitted acts (WatchFolderProcessor.init cfg)
  ≡ₚ (map ProcessingQueue.entry_item (ProcessingQueue.queue (WatchFolderProcessor.queue p))
      ++ map Result.task (results acts (WatchFolderProcessor.init cfg)))%list.
Proof.
  intros Hrun. symmetry. apply (run_conserves_tasks _ _ _ Hrun).
Qed.

Section WorkerFacts.

Import ProcessingQueue Order WatchFolderProcessor.



(** The newest entry of a bag is selected only if it is below the entry
    selected among the others. *)
Lemma select_app_last x l y :
  fst (select x (l ++ [y]))
  = if entry_ltb y (fst (select x l)) then y else fst (select x l).
Proof.
  revert x. induction l as [|z l IH]; intros x; simpl.
  - destruct (entry_ltb y x); reflexivity.
  - destruct (entry_ltb z x).
    + specialize (IH z). destruct (select z (l ++ [y])), (select z l). exact IH.
    + specialize (IH x). destruct (select x (l ++ [y])), (select x l). exact IH.
Qed.

Lemma dequeue_first q x l :
  ProcessingQueue.queue q = x :: l ->
  fst (dequeue q) = Some (entry_item (fst (select x l))).
Proof.
  intros Hq. unfold dequeue. rewrite Hq. simpl.
  destruct (select x l) as [[[pr id] item] rest]. reflexivity.
Qed.

Lemma select_member x l : fst (select x l) ∈ x :: l.
Proof.
  destruct (select x l) as [m r] eqn:E. rewrite (select_perm _ _ _ _ E). left.
Qed.

End WorkerFacts.

Section HandlerDomain.

Import WatchFolderProcessor.

Lemma perform_recorded a p p' :
  (forall folder h, handlers p !! folder = Some h ->
     dom (WatchFolderHandler.last_processed h) = WatchFolderHandler.processed_files h) ->
  perform a p = Some p' ->
  forall folder h, handlers p' !! folder = Some h ->
    dom (WatchFolderHandler.last_processed h) = WatchFolderHandler.processed_files h.
Proof.
  intros Hinv Hp folder h.
  destruct a as [w f|w path priority|w f kind event| | |w worker_id]; simpl in Hp.
  - unfold add_watch_folder in Hp.
    assert (Hcase : p' = p
                    \/ p' = with_handlers (<[ f := WatchFolderHandler.init ]> (handlers p)) p).
    { repeat case_match; simplify_eq; auto. }
    destruct Hcase as [-> | ->]; [apply Hinv |]. simpl.
    destruct (decide (f = folder)) as [-> | Hne].
    + rewrite lookup_insert_eq. intros [= <-]. simpl. apply dom_empty_L.
    + rewrite lookup_insert_ne by exact Hne. apply Hinv.
  - injection Hp as <-. rewrite enqueue_file_handlers. apply Hinv.
  - injection Hp as <-. rewrite deliver_handlers. apply Hinv.
  - injection Hp as <-. apply Hinv.
  - injection Hp as <-. apply Hinv.
  - destruct (running p); [|discriminate]. injection Hp as <-.
    destruct (worker_pass_handlers w worker_id p) as [-> | [path ->]]; [apply Hinv |].
    rewrite marked_lookup.
    destruct (handlers p !! folder) as [h0|] eqn:Hh0; [|discriminate].
    intros [= <-]. unfold WatchFolderHandler.mark_processed. simpl.
    rewrite dom_insert_L, (Hinv _ _ Hh0). reflexivity.
Qed.

Lemma run_recorded acts p p' :
  (forall folder h, handlers p !! folder = Some h ->
     dom (WatchFolderHandler.last_processed h) = WatchFolderHandler.processed_files h) ->
  run acts p = Some p' ->
  forall folder h, handlers p' !! folder = Some h ->
    dom (WatchFolderHandler.last_processed h) = WatchFolderHandler.processed_files h.
Proof.
  revert p. induction acts as [|a acts IH]; intros p Hinv; simpl.
  - intros [= <-]. exact Hinv.
  - destruct (perform a p) as [p1|] eqn:Hp; [|discriminate].
    apply IH. eapply perform_recorded; eauto.
Qed.

Lemma process_file_rest w task p :
  snd (process_file w task p) = with_handlers (handlers (snd (process_file w task p))) p.
Proof.
  unfold process_file. destruct (try_body _ _ _ _) as [o [r hs]]. reflexivity.
Qed.

End HandlerDomain.


(** X6.  The directory of the log file is ensured outside any [try]: when
    that fails, the exception leaves the worker loop and ends the worker.
    The task it had taken is gone from the queue and already counted as
    processed, no log line is written for it, and the tasks behind it stay
    on the queue. *)
Theorem log_directory_failure_ends_worker (w : World) (ws : list World)
    (worker_id : Z) (p : WatchFolderProcessor.t) (task : Task)
    (q' : ProcessingQueue.t) (e : string) :
  WatchFolderProcessor.running p = true ->
  ProcessingQueue.dequeue (WatchFolderProcessor.queue p) = (Some task, q') ->
  ensure_directory w (PathLib.parent (log_file (WatchFolderProcessor.config p)))
  = Raises e ->
  let pass := WatchFolderProcessor._worker_loop (w :: ws) worker_id p in
  WatchFolderProcessor.escaped pass = Some e
  /\ WatchFolderProcessor.effects pass = []
  /\ WatchFolderProcessor.queue (WatchFolderProcessor.after pass) = q'
  /\ Stats.processed_files (WatchFolderProcessor.stats (WatchFolderProcessor.after pass))
     = Stats.processed_files (WatchFolderProcessor.stats p) + 1.
Proof.
  intros Hrun Hdq Hlog pass.
  assert (Hpass : WatchFolderProcessor.escaped
                    (WatchFolderProcessor._worker_pass w worker_id p) = Some e
                  /\ WatchFolderProcessor.effects
                       (WatchFolderProcessor._worker_pass w worker_id p) = []).
  { unfold WatchFolderProcessor._worker_pass. rewrite Hdq.
    destruct (process_file_cases w task (WatchFolderProcessor.with_queue q' p)) as (Hc & _).
    destruct (WatchFolderProcessor.process_file w task
                (WatchFolderProcessor.with_queue q' p)) as [r p1].
    simpl in Hc. unfold WatchFolderProcessor._log_result. simpl.
    rewrite Hc, Hlog. split; reflexivity. }
  destruct Hpass as [Hesc Heff].
  subst pass. simpl. rewrite Hrun, Hesc.
  split; [exact Hesc |]. split; [exact Heff |].
  destruct (worker_pass_completes w worker_id p task q' Hdq) as [Hq Hs].
  split; [exact Hq |]. rewrite Hs. reflexivity.
Qed.

(** X7.  In every state a run reaches, a handler has a time of processing
    on record for exactly the files among its processed files.  The times
    therefore never decide anything: [on_modified] treats an event as it
    would with no time on record at all, so the 60-second test only compares
    the clock itself with 60. *)
Theorem recorded_times_never_matter (cfg : Config) (acts : list Action)
    (p : WatchFolderProcessor.t) (folder : string) (h : WatchFolderHandler.t)
    (w : World) (event : Event) :
  run acts (WatchFolderProcessor.init cfg) = Some p ->
  WatchFolderProcessor.handlers p !! folder = Some h ->
  dom (WatchFolderHandler.last_processed h) = WatchFolderHandler.processed_files h
  /\ WatchFolderEvents.on_modified w h event p
     = WatchFolderEvents.on_modified w
         (WatchFolderHandler.mk (WatchFolderHandler.processed_files h) ∅) event p.
Proof.
  intros Hrun Hh.
  assert (Hdom : dom (WatchFolderHandler.last_processed h)
                 = WatchFolderHandler.processed_files h).
  { eapply (run_recorded acts (WatchFolderProcessor.init cfg)); eauto.
    intros f h0. simpl. rewrite lookup_empty. discriminate. }
  split; [exact Hdom |].
  unfold WatchFolderEvents.on_modified.
  destruct (is_directory event); [reflexivity |].
  assert (Hsame : WatchFolderHandler._should_process w
                    (WatchFolderHandler.mk (WatchFolderHandler.processed_files h) ∅)
                    (src_path event)
                  = WatchFolderHandler._should_process w h (src_path event))
    by reflexivity.
  rewrite Hsame.
  destruct (WatchFolderHandler._should_process w h (src_path event)) eqn:Hsp;
    [|reflexivity].
  assert (Hnot : src_path event ∉ WatchFolderHandler.processed_files h).
  { intros Hin. rewrite (should_process_processed _ _ _ Hin) in Hsp. discriminate. }
  assert (Hnone : WatchFolderHandler.last_processed h !! src_path event = None).
  { apply not_elem_of_dom. rewrite Hdom. exact Hnot. }
  unfold timestamp in *. rewrite Hnone. reflexivity.
Qed.

(** X8.  What [dequeue] returns after an [enqueue]: a task enqueued at a
    priority number below those of all queued entries is the next one out,
    however many entries were queued before it; a task enqueued at a
    priority number not below any of them leaves the next one out as it
    was. *)
Theorem priority_decides_next_task (item : Task) (n : Z) (q : ProcessingQueue.t) :
  fresh_ids q ->
  (Forall (fun e => n < ProcessingQueue.entry_priority e) (ProcessingQueue.queue q) ->
   fst (ProcessingQueue.dequeue (ProcessingQueue.enqueue item n q)) = Some item)
  /\ (ProcessingQueue.queue q <> [] ->
      Forall (fun e => ProcessingQueue.entry_priority e <= n) (ProcessingQueue.queue q) ->
      fst (ProcessingQueue.dequeue (ProcessingQueue.enqueue item n q))
      = fst (ProcessingQueue.dequeue q)).
Proof.
  intros [Hnd Hle].
  destruct (ProcessingQueue.queue q) as [|x l] eqn:Hq.
  - split; [|congruence]. intros _.
    unfold ProcessingQueue.dequeue, ProcessingQueue.enqueue, ProcessingQueue.put.
    simpl. rewrite Hq. reflexivity.
  - assert (Hnew : ProcessingQueue.queue (ProcessingQueue.enqueue item n q)
                   = x :: (l ++ [(n, ProcessingQueue.task_id q + 1, item)])%list).
    { unfold ProcessingQueue.enqueue, ProcessingQueue.put. simpl. rewrite Hq. reflexivity. }
    rewrite (dequeue_first _ _ _ Hnew), (dequeue_first _ _ _ Hq), select_app_last.
    pose proof (select_member x l) as Hm.
    rewrite Forall_forall in Hle. specialize (Hle _ Hm).
    split.
    + intros Hlow. rewrite Forall_forall in Hlow. specialize (Hlow _ Hm).
      replace (ProcessingQueue.entry_ltb _ _) with true; [reflexivity |].
      symmetry. unfold ProcessingQueue.entry_ltb. simpl.
      apply orb_true_iff. left. apply Z.ltb_lt. exact Hlow.
    + intros _ Hhigh. rewrite Forall_forall in Hhigh. specialize (Hhigh _ Hm).
      replace (ProcessingQueue.entry_ltb _ _) with false; [reflexivity |].
      symmetry. unfold ProcessingQueue.entry_ltb, ProcessingQueue.entry_priority,
        ProcessingQueue.entry_id in *. simpl.
      apply orb_false_iff. split; [apply Z.ltb_ge; exact Hhigh |].
      apply andb_false_iff. right. apply Z.ltb_ge. lia.
Qed.

(** X9.  A call of [process_file] whose result is unsuccessful changes
    nothing in the processor: no handler has marked the file, so later
    events for it are treated as before; and the result carries exactly one
    error message, names the task it was given and records the two readings
    of the clock. *)
Theorem failed_processing_changes_nothing (w : World) (task : Task)
    (p : WatchFolderProcessor.t) :
  Result.success (fst (WatchFolderProcessor.process_file w task p)) = false ->
  let result := fst (WatchFolderProcessor.process_file w task p) in
  snd (WatchFolderProcessor.process_file w task p) = p
  /\ (exists msg, Result.errors result = [msg])
  /\ Result.output_path result = None
  /\ Result.task result = task
  /\ Result.processing_time result = (time_end w - time_start w)%Q.
Proof.
  intros Hfail result.
  destruct (process_file_cases w task p) as (_ & _ & _ & _ & [H | H]);
    [|destruct H as (_ & Hs & _); congruence].
  destruct H as (Hh & _ & Hmsg).
  split.
  { rewrite process_file_rest, Hh. destruct p; reflexivity. }
  split; [exact Hmsg |].
  split; [|split; apply process_file_task].
  subst result. revert Hfail. unfold WatchFolderProcessor.process_file.
  match goal with
  | |- context [WatchFolderProcessor.try_body w ?c ?f (?r0, ?hs0)] =>
      generalize (try_body_output w c f r0 hs0 eq_refl eq_refl);
      destruct (WatchFolderProcessor.try_body w c f (r0, hs0)) as [o [r hs]]
  end.
  simpl. intros Hout. destruct o; simpl; intros Hf; apply Hout; exact Hf.
Qed.

(* ------------------------------------------------------------------ *)
(** ** Facts about the scan of existing files *)

Section ScanFacts.

Import ProcessingQueue Order WatchFolderProcessor ExistingFiles.





Lemma enqueue_low_requests w files p :
  enqueue_low w files p = enqueue_files (map (fun f => (w, f, Low)) files) p.
Proof.
  revert p. induction files as [|f files IH]; intros p; simpl; [reflexivity | apply IH].
Qed.

Lemma numbered_low_items w seq files :
  map entry_item (numbered seq (map (fun f => (w, f, Low)) files))
  = map (low_task w) files.
Proof.
  revert seq. induction files as [|f files IH]; intros seq; simpl; [reflexivity |].
  rewrite IH. reflexivity.
Qed.

Lemma numbered_low_sorted w seq files :
  StronglySorted key_le (numbered seq (map (fun f => (w, f, Low)) files)).
Proof.
  revert seq. induction files as [|f files IH]; intros seq; simpl; constructor.
  - apply IH.
  - pose proof (numbered_ids_above (seq + 1) (map (fun f0 => (w, f0, Low)) files)) as Hab.
    assert (Hpr : Forall (fun e => entry_priority e = 2)
                    (numbered (seq + 1) (map (fun f0 => (w, f0, Low)) files))).
    { clear. generalize (seq + 1). induction files as [|g files IH]; intros s; simpl;
        constructor; [reflexivity | apply IH]. }
    rewrite Forall_forall in Hab, Hpr. apply Forall_forall. intros e He.
    specialize (Hab _ He). specialize (Hpr _ He).
    unfold key_le, entry_priority, entry_id in *. simpl. lia.
Qed.

Lemma sorted_app (l1 l2 : list entry) :
  StronglySorted key_le l1 -> StronglySorted key_le l2 ->
  (forall a b, a ∈ l1 -> b ∈ l2 -> key_le a b) ->
  StronglySorted key_le (l1 ++ l2).
Proof.
  induction 1 as [|a l1 Hs IH Ha]; intros H2 Hcross; simpl; [exact H2 |].
  constructor.
  - apply IH; [exact H2 |]. intros x y Hx Hy. apply Hcross; [right; exact Hx | exact Hy].
  - apply Forall_app. split; [exact Ha |].
    apply Forall_forall. intros y Hy. apply Hcross; [left | exact Hy].
Qed.

(** Files enqueued at low priority behind a well-keyed queue come out
    after everything that was queued, in the order they were enqueued. *)
Lemma enqueue_low_order w files p :
  fresh_ids (queue p) -> ranked (queue p) ->
  size (queue p) + Z.of_nat (length files) <= max_queue_size (config p) ->
  dequeue_all (queue (enqueue_low w files p))
  = (dequeue_all (queue p) ++ map (low_task w) files)%list.
Proof.
  intros [Hnd Hle] Hrk Hroom.
  set (reqs := map (fun f => (w, f, Low)) files).
  set (news := numbered (task_id (queue p)) reqs).
  assert (Hq : ProcessingQueue.queue (queue (enqueue_low w files p))
               = (ProcessingQueue.queue (queue p) ++ news)%list).
  { rewrite enqueue_low_requests, enqueue_files_queue. fold reqs.
    rewrite accepted_all; [reflexivity |]. subst reqs. rewrite length_map. exact Hroom. }
  assert (Hnd' : NoDup (map entry_id (ProcessingQueue.queue (queue p) ++ news))).
  { rewrite map_app. apply NoDup_app. split; [exact Hnd |].
    split; [|apply numbered_ids_distinct].
    intros id Hold Hnew.
    apply list_elem_of_fmap in Hold as (a & -> & Ha).
    apply list_elem_of_fmap in Hnew as (b & Hab & Hb).
    pose proof (numbered_ids_above (task_id (queue p)) reqs) as Habove.
    rewrite Forall_forall in Hle, Habove.
    specialize (Hle _ Ha). specialize (Habove _ Hb). lia. }
  rewrite (dequeue_all_stable_sort (queue p) Hnd).
  rewrite dequeue_all_stable_sort; rewrite Hq; [|exact Hnd'].
  rewrite <- (numbered_low_items w (task_id (queue p)) files). fold reqs. fold news.
  rewrite <- map_app. f_equal.
  apply sorted_perm_unique.
  - rewrite stable_sort_perm. exact Hnd'.
  - apply stable_sort_sorted.
  - apply sorted_app; [apply stable_sort_sorted | apply numbered_low_sorted |].
    intros a b Ha Hb. rewrite stable_sort_perm in Ha.
    unfold ranked in Hrk. rewrite Forall_forall in Hle, Hrk.
    specialize (Hle _ Ha). specialize (Hrk _ Ha).
    pose proof (numbered_ids_above (task_id (queue p)) reqs) as Habove.
    rewrite Forall_forall in Habove. specialize (Habove _ Hb).
    assert (Hpb : entry_priority b = 2).
    { subst news reqs. clear -Hb. revert Hb. generalize (task_id (queue p)).
      induction files as [|g files IH]; intros s; simpl; intros Hb.
      - apply elem_of_nil in Hb. contradiction.
      - apply elem_of_cons in Hb as [-> | Hb]; [reflexivity | eapply IH; eauto]. }
    unfold key_le. lia.
  - rewrite !stable_sort_perm. reflexivity.
Qed.



End ScanFacts.


(** X11.  A scan of an existing folder, made in a state a run has reached
    and with room on the queue for the files found, delays no task that is
    already queued: the queue releases first all it held, in their order,
    and then the files of the scan, in the order [find_audio_files] listed
    them. *)
Theorem existing_files_wait_behind (cfg : Config) (acts : list Action)
    (p : WatchFolderProcessor.t) (fs : Folders) (w : World) (folder : string) :
  run acts (WatchFolderProcessor.init cfg) = Some p ->
  folder <> "" ->
  folder_exists fs folder = true ->
  ProcessingQueue.size (WatchFolderProcessor.queue p)
  + Z.of_nat (length (find_audio_files fs folder)) <= max_queue_size cfg ->
  ProcessingQueue.dequeue_all
    (WatchFolderProcessor.queue
       (ExistingFiles.process_existing_files fs w (Some folder) p))
  = (ProcessingQueue.dequeue_all (WatchFolderProcessor.queue p)
     ++ map (ExistingFiles.low_task w) (find_audio_files fs folder))%list.
Proof.
  intros Hrun Hne Hex Hroom.
  unfold ExistingFiles.process_existing_files.
  destruct folder as [|c s]; [congruence |]. simpl. rewrite Hex. simpl.
  apply enqueue_low_order.
  - apply (reachable_ids_distinct _ _ _ Hrun).
  - apply (run_ranked acts (WatchFolderProcessor.init cfg)); [constructor | exact Hrun].
  - rewrite (run_config _ _ _ Hrun). exact Hroom.
Qed.

(* ------------------------------------------------------------------ *)
(** ** Facts about the file utilities *)

Set Warnings "-clear-no-such-hyp".

Section FileManagerFacts.

Import FileManager.

Lemma differs_spec old_tree new_tree f :
  differs old_tree new_tree f = true
  <-> exists o n, old_tree !! f = Some o /\ new_tree !! f = Some n
                  /\ (hash o <> hash n \/ size o <> size n).
Proof.
  unfold differs.
  destruct (old_tree !! f) as [o|], (new_tree !! f) as [n|];
    try (split; [discriminate | intros (? & ? & ? & ? & _); congruence]).
  rewrite orb_true_iff, !negb_true_iff.
  rewrite <- !not_true_iff_false, String.eqb_eq, Z.eqb_eq.
  split.
  - intros H. exists o, n. auto.
  - intros (o' & n' & [= <-] & [= <-] & H). exact H.
Qed.

Lemma differs_sym old_tree new_tree f :
  differs old_tree new_tree f = differs new_tree old_tree f.
Proof.
  unfold differs.
  destruct (old_tree !! f) as [o|], (new_tree !! f) as [n|]; try reflexivity.
  rewrite (String.eqb_sym (hash o)), (Z.eqb_sym (size o)). reflexivity.
Qed.

End FileManagerFacts.

(** X12.  Every extension the event handler admits is one that
    [is_audio_file], and so [validate_audio_file], takes for audio; the
    converse fails: files ending in .aif or .opus are audio files for the
    validation, yet no event for them is ever enqueued. *)
Theorem handler_extensions_are_audio (path : string) :
  (supported path -> FileManager.is_audio_file path = true)
  /\ (forall w h,
        WatchFolderHandler._should_process w h path = true ->
        FileManager.is_audio_file path = true)
  /\ (Str.lower (PathLib.suffix path) = ".aif" \/ Str.lower (PathLib.suffix path) = ".opus" ->
      FileManager.is_audio_file path = true
      /\ forall w folder kind directory p,
           WatchFolderEvents.deliver w folder kind (mkEvent directory path) p = p).
Proof.
  assert (Hsup : supported path -> FileManager.is_audio_file path = true).
  { unfold supported, WatchFolderHandler.supported_exts, FileManager.is_audio_file,
      FileManager.get_supported_formats.
    intros H. apply bool_decide_eq_true. rewrite !elem_of_cons, elem_of_nil in *.
    repeat (destruct H as [-> | H]; [auto 12 |]). contradiction. }
  split; [exact Hsup |].
  split.
  - intros w h Hsp. apply Hsup. unfold WatchFolderHandler._should_process in Hsp.
    destruct (bool_decide (path ∈ _)); [discriminate |].
    destruct (bool_decide (Str.lower (PathLib.suffix path) ∈ _)) eqn:He; [|discriminate].
    apply bool_decide_eq_true in He. exact He.
  - intros Hext.
    assert (Hnot : ~ supported path).
    { unfold supported, WatchFolderHandler.supported_exts.
      rewrite !elem_of_cons, elem_of_nil.
      destruct Hext as [-> | ->]; intros H;
        repeat (destruct H as [H | H]; [discriminate |]); exact H. }
    split.
    + unfold FileManager.is_audio_file, FileManager.get_supported_formats.
      apply bool_decide_eq_true. rewrite !elem_of_cons. destruct Hext as [-> | ->]; auto 10.
    + intros w folder kind directory p. unfold WatchFolderEvents.deliver.
      destruct (WatchFolderProcessor.handlers p !! folder) as [h|]; [|reflexivity].
      assert (Hsp : WatchFolderHandler._should_process w h path = false).
      { unfold WatchFolderHandler._should_process.
        destruct (bool_decide (path ∈ _)); [reflexivity |].
        rewrite (bool_decide_eq_false_2 _ Hnot). reflexivity. }
      destruct kind; unfold WatchFolderEvents.on_created, WatchFolderEvents.on_modified;
        simpl; rewrite Hsp; destruct directory; reflexivity.
Qed.

(** X13.  [compare_hash_trees] sorts every file of the two trees into
    exactly one of its four lists: added, modified, removed and unchanged
    are pairwise disjoint; added, modified and unchanged make up the files
    of the new tree, and removed, modified and unchanged those of the old
    one. *)
Theorem compare_hash_trees_partitions
    (old_tree new_tree : gmap string FileManager.HashEntry) :
  let c := FileManager.compare_hash_trees old_tree new_tree in
  FileManager.added c ∪ FileManager.changed c ∪ FileManager.unchanged c = dom new_tree
  /\ FileManager.removed c ∪ FileManager.changed c ∪ FileManager.unchanged c = dom old_tree
  /\ FileManager.added c ## FileManager.changed c
  /\ FileManager.added c ## FileManager.removed c
  /\ FileManager.added c ## FileManager.unchanged c
  /\ FileManager.changed c ## FileManager.removed c
  /\ FileManager.changed c ## FileManager.unchanged c
  /\ FileManager.removed c ## FileManager.unchanged c.
Proof.
  unfold FileManager.compare_hash_trees. simpl.
  repeat split; try set_solver.
  - apply set_eq. intros f. set_unfold.
    destruct (decide (f ∈ dom old_tree)) as [Ho | Ho];
      destruct (FileManager.differs old_tree new_tree f) eqn:Hd; set_solver.
  - apply set_eq. intros f. set_unfold.
    destruct (decide (f ∈ dom new_tree)) as [Hn | Hn];
      destruct (FileManager.differs old_tree new_tree f) eqn:Hd; set_solver.
Qed.

(** X14.  A file is reported as modified exactly when it is in both trees
    and its hash or its size differs; the modification time is never looked
    at.  So two trees that agree on the hash and the size of every file
    report nothing as modified, and a tree compared with itself reports
    every file as unchanged. *)
Theorem compare_hash_trees_modified
    (old_tree new_tree : gmap string FileManager.HashEntry) :
  (forall f,
      f ∈ FileManager.changed (FileManager.compare_hash_trees old_tree new_tree)
      <-> exists o n,
            old_tree !! f = Some o /\ new_tree !! f = Some n
            /\ (FileManager.hash o <> FileManager.hash n
                \/ FileManager.size o <> FileManager.size n))
  /\ ((forall f o n,
          old_tree !! f = Some o -> new_tree !! f = Some n ->
          FileManager.hash o = FileManager.hash n
          /\ FileManager.size o = FileManager.size n) ->
      FileManager.changed (FileManager.compare_hash_trees old_tree new_tree) = ∅)
  /\ FileManager.compare_hash_trees old_tree old_tree
     = FileManager.mkChanges ∅ ∅ ∅ (dom old_tree).
Proof.
  assert (Hchar : forall f,
    f ∈ FileManager.changed (FileManager.compare_hash_trees old_tree new_tree)
    <-> exists o n,
          old_tree !! f = Some o /\ new_tree !! f = Some n
          /\ (FileManager.hash o <> FileManager.hash n
              \/ FileManager.size o <> FileManager.size n)).
  { intros f. unfold FileManager.compare_hash_trees. simpl.
    rewrite elem_of_filter, differs_spec. split; [intros [H _]; exact H |].
    intros H. split; [exact H |].
    destruct H as (o & n & Ho & Hn & _).
    apply elem_of_intersection. split; apply elem_of_dom; eauto. }
  split; [exact Hchar |].
  split.
  - intros Hagree. apply set_eq. intros f. rewrite Hchar. split; [|set_solver].
    intros (o & n & Ho & Hn & Hd). destruct (Hagree _ _ _ Ho Hn). tauto.
  - assert (Hnone : filter (fun f => FileManager.differs old_tree old_tree f = true)
                      (dom old_tree ∩ dom old_tree) = (∅ : gset string)).
    { apply set_eq. intros f. rewrite elem_of_filter, differs_spec. split; [|set_solver].
      intros [(o & n & Ho & Hn & Hd) _]. rewrite Ho in Hn. injection Hn as <-. tauto. }
    unfold FileManager.compare_hash_trees. rewrite Hnone.
    f_equal; set_solver.
Qed.

(** X15.  Comparing the trees the other way round exchanges added and
    removed and keeps modified and unchanged. *)
Theorem compare_hash_trees_swapped
    (old_tree new_tree : gmap string FileManager.HashEntry) :
  let c := FileManager.compare_hash_trees old_tree new_tree in
  let c' := FileManager.compare_hash_trees new_tree old_tree in
  FileManager.added c' = FileManager.removed c
  /\ FileManager.removed c' = FileManager.added c
  /\ FileManager.changed c' = FileManager.changed c
  /\ FileManager.unchanged c' = FileManager.unchanged c.
Proof.
  unfold FileManager.compare_hash_trees. simpl.
  assert (Hf : filter (fun f => FileManager.differs new_tree old_tree f = true)
                 (dom new_tree ∩ dom old_tree)
               = filter (fun f => FileManager.differs old_tree new_tree f = true)
                   (dom old_tree ∩ dom new_tree)).
  { apply set_eq. intros f. rewrite !elem_of_filter, (differs_sym new_tree old_tree).
    set_solver. }
  split; [reflexivity |]. split; [reflexivity |]. split; [exact Hf |].
  rewrite Hf. set_solver.
Qed.

Section BackupFacts.

Import FileManager.

Lemma keyed_times d files (mtime : string -> Q) :
  (forall f, f ∈ files -> st_mtime d f = Returns (mtime f)) ->
  keyed d files = Returns (map (fun f => (f, mtime f)) files).
Proof.
  induction files as [|f files IH]; intros Hok; simpl; [reflexivity |].
  rewrite (Hok f) by left. rewrite IH; [reflexivity |].
  intros g Hg. apply Hok. right. exact Hg.
Qed.

Lemma keyed_raises d files f e :
  f ∈ files -> st_mtime d f = Raises e -> exists e', keyed d files = Raises e'.
Proof.
  induction files as [|g files IH]; intros Hin Hf; simpl.
  - apply elem_of_nil in Hin. contradiction.
  - apply elem_of_cons in Hin as [<- | Hin].
    + rewrite Hf. eauto.
    + destruct (st_mtime d g); [|eauto].
      destruct (IH Hin Hf) as [e' ->]. eauto.
Qed.

Lemma insert_newest_perm x l : insert_newest x l ≡ₚ x :: l.
Proof.
  induction l as [|y l IH]; simpl; [reflexivity |].
  destruct (Qle_bool (snd y) (snd x)); [reflexivity |].
  rewrite IH. apply Permutation_swap.
Qed.

Lemma newest_first_perm l : newest_first l ≡ₚ l.
Proof.
  induction l as [|x l IH]; simpl; [reflexivity |].
  rewrite insert_newest_perm. f_equiv. exact IH.
Qed.

Lemma insert_newest_sorted x l :
  StronglySorted not_older l -> StronglySorted not_older (insert_newest x l).
Proof.
  induction 1 as [|y l Hs IH Hy]; simpl.
  - repeat constructor.
  - destruct (Qle_bool (snd y) (snd x)) eqn:C.
    + apply Qle_bool_iff in C.
      constructor; [constructor; assumption |].
      constructor; [exact C |].
      eapply Forall_impl; [exact Hy |].
      intros z Hz. unfold not_older in *. eapply Qle_trans; eauto.
    + assert (Hxy : (snd x <= snd y)%Q).
      { destruct (Qlt_le_dec (snd y) (snd x)) as [Hlt | Hle]; [|exact Hle].
        apply Qlt_le_weak. apply Qnot_le_lt. intros Hle. apply Qle_bool_iff in Hle.
        congruence. }
      constructor; [exact IH |].
      rewrite insert_newest_perm. constructor; assumption.
Qed.

Lemma newest_first_sorted l : StronglySorted not_older (newest_first l).
Proof.
  induction l as [|x l IH]; simpl; [constructor | apply insert_newest_sorted, IH].
Qed.

Lemma sorted_split (l1 l2 : list (string * Q)) :
  StronglySorted not_older (l1 ++ l2) ->
  forall a b, a ∈ l1 -> b ∈ l2 -> not_older a b.
Proof.
  induction l1 as [|x l1 IH]; simpl; intros Hs a b Ha Hb.
  - apply elem_of_nil in Ha. contradiction.
  - apply StronglySorted_inv in Hs as [Hs Hx].
    apply elem_of_cons in Ha as [-> | Ha]; [|eapply IH; eauto].
    rewrite Forall_forall in Hx. apply Hx. apply elem_of_app. right. exact Hb.
Qed.

Lemma unlink_each_sublist d files : unlink_each d files `sublist_of` files.
Proof.
  induction files as [|f files IH]; simpl; [constructor |].
  destruct (unlink_file d f); constructor; exact IH.
Qed.

Lemma unlink_each_all d files :
  (forall f, f ∈ files -> unlink_file d f = Returns tt) -> unlink_each d files = files.
Proof.
  induction files as [|f files IH]; intros Hok; simpl; [reflexivity |].
  rewrite (Hok f) by left. f_equal. apply IH. intros g Hg. apply Hok. right. exact Hg.
Qed.

Lemma slice_from_negative {A} (k : Z) (l : list A) :
  k < 0 -> (Z.of_nat (length (slice_from k l)) <= - k).
Proof.
  intros Hk. unfold slice_from.
  replace (0 <=? k) with false by (symmetry; apply Z.leb_gt; exact Hk).
  rewrite length_drop. lia.
Qed.

End BackupFacts.

(** X16.  [cleanup_old_backups] with a count [keep_last_n >= 0], in a
    directory whose files can all be examined: the files are put newest
    first, the first [keep_last_n] of that order are never removed, and
    every one of them is at least as new as every file that may be removed.
    The number returned is the number of files actually removed, at most the
    number of files beyond the first [keep_last_n]; when every removal
    succeeds all of those are removed. *)
Theorem cleanup_keeps_the_newest (d : FileManager.BackupDir) (keep_last_n : Z)
    (mtime : string -> Q) :
  FileManager.dir_exists d = true ->
  0 <= keep_last_n ->
  (forall f, f ∈ FileManager.glob_all d -> FileManager.st_mtime d f = Returns (mtime f)) ->
  let ordered :=
    FileManager.newest_first (map (fun f => (f, mtime f)) (FileManager.glob_all d)) in
  let kept := take (Z.to_nat keep_last_n) ordered in
  let old := drop (Z.to_nat keep_last_n) ordered in
  let count := fst (FileManager.cleanup_old_backups d keep_last_n) in
  let deleted := snd (FileManager.cleanup_old_backups d keep_last_n) in
  ordered ≡ₚ map (fun f => (f, mtime f)) (FileManager.glob_all d)
  /\ (forall a b, a ∈ kept -> b ∈ old -> (snd b <= snd a)%Q)
  /\ deleted `sublist_of` map fst old
  /\ count = Z.of_nat (length deleted)
  /\ count <= Z.max 0 (Z.of_nat (length (FileManager.glob_all d)) - keep_last_n)
  /\ ((forall f, f ∈ FileManager.glob_all d -> FileManager.unlink_file d f = Returns tt) ->
      deleted = map fst old).
Proof.
  intros Hex Hkeep Hstat ordered kept old count deleted.
  assert (Hrun : FileManager.cleanup_old_backups d keep_last_n
                 = (Z.of_nat (length (FileManager.unlink_each d (map fst old))),
                    FileManager.unlink_each d (map fst old))).
  { unfold FileManager.cleanup_old_backups. rewrite Hex. simpl.
    rewrite (keyed_times d _ mtime Hstat). fold ordered.
    unfold FileManager.slice_from.
    replace (0 <=? keep_last_n) with true by (symmetry; apply Z.leb_le; exact Hkeep).
    subst old. rewrite <- fmap_drop. reflexivity. }
  subst count deleted. rewrite Hrun. simpl.
  pose proof (newest_first_perm (map (fun f => (f, mtime f)) (FileManager.glob_all d)))
    as Hperm. fold ordered in Hperm.
  split; [exact Hperm |].
  split.
  { intros a b Ha Hb.
    apply (sorted_split kept old); [|exact Ha | exact Hb].
    subst kept old. rewrite take_drop. apply newest_first_sorted. }
  pose proof (unlink_each_sublist d (map fst old)) as Hsub.
  split; [exact Hsub |].
  split; [reflexivity |].
  split.
  { apply sublist_length in Hsub. rewrite length_map in Hsub. subst old.
    rewrite length_drop in Hsub. apply Permutation_length in Hperm.
    rewrite length_map in Hperm. lia. }
  intros Hall. apply unlink_each_all. intros f Hf. apply Hall.
  apply list_elem_of_fmap in Hf as (a & -> & Ha).
  assert (Hin : a ∈ map (fun f => (f, mtime f)) (FileManager.glob_all d)).
  { rewrite <- Hperm, <- (take_drop (Z.to_nat keep_last_n) ordered).
    apply elem_of_app. right. exact Ha. }
  apply list_elem_of_fmap in Hin as (f & -> & Hf). exact Hf.
Qed.

(** X17.  [cleanup_old_backups] with a negative [keep_last_n].  The slice
    [backup_files[keep_last_n:]] then holds the last [-keep_last_n] files of
    the order newest first, and all the files when there are no more than
    that.  So the number returned is at most [-keep_last_n], whatever the
    directory holds; and in a directory whose files can all be examined,
    the files that may be removed are the [-keep_last_n] oldest, every file
    spared is at least as new as every one of them, all of them are removed
    when every removal succeeds, and then no file at all is left when the
    directory holds no more than [-keep_last_n] files. *)
Theorem cleanup_negative_keep (d : FileManager.BackupDir) (keep_last_n : Z)
    (mtime : string -> Q) :
  keep_last_n < 0 ->
  let count := fst (FileManager.cleanup_old_backups d keep_last_n) in
  let deleted := snd (FileManager.cleanup_old_backups d keep_last_n) in
  let n := Z.of_nat (length (FileManager.glob_all d)) in
  let ordered :=
    FileManager.newest_first (map (fun f => (f, mtime f)) (FileManager.glob_all d)) in
  let spared := take (Z.to_nat (n + keep_last_n)) ordered in
  let old := drop (Z.to_nat (n + keep_last_n)) ordered in
  0 <= count <= - keep_last_n
  /\ count = Z.of_nat (length deleted)
  /\ (FileManager.dir_exists d = true ->
      (forall f, f ∈ FileManager.glob_all d ->
                 FileManager.st_mtime d f = Returns (mtime f)) ->
      ordered ≡ₚ map (fun f => (f, mtime f)) (FileManager.glob_all d)
      /\ Z.of_nat (length old) = Z.min (- keep_last_n) n
      /\ Z.of_nat (length spared) = Z.max 0 (n + keep_last_n)
      /\ (forall a b, a ∈ spared -> b ∈ old -> (snd b <= snd a)%Q)
      /\ deleted `sublist_of` map fst old
      /\ ((forall f, f ∈ FileManager.glob_all d ->
                     FileManager.unlink_file d f = Returns tt) ->
          deleted = map fst old
          /\ count = Z.min (- keep_last_n) n
          /\ (n <= - keep_last_n -> deleted = map fst ordered))).
Proof.
  intros Hneg count deleted n ordered spared old.
  split.
  { subst count. unfold FileManager.cleanup_old_backups.
    destruct (FileManager.dir_exists d); simpl; [|lia].
    destruct (FileManager.keyed d (FileManager.glob_all d)) as [with_times|e]; simpl; [|lia].
    pose proof (unlink_each_sublist d
                  (FileManager.slice_from keep_last_n
                     (map fst (FileManager.newest_first with_times)))) as Hsub.
    apply sublist_length in Hsub.
    pose proof (slice_from_negative keep_last_n
                  (map fst (FileManager.newest_first with_times)) Hneg).
    lia. }
  split.
  { subst count deleted. unfold FileManager.cleanup_old_backups.
    destruct (FileManager.dir_exists d); simpl; [|reflexivity].
    destruct (FileManager.keyed d (FileManager.glob_all d)); reflexivity. }
  intros Hex Hstat.
  pose proof (newest_first_perm (map (fun f => (f, mtime f)) (FileManager.glob_all d)))
    as Hperm. fold ordered in Hperm.
  assert (Hlen : Z.of_nat (length ordered) = n).
  { apply Permutation_length in Hperm. rewrite length_map in Hperm.
    subst n. rewrite Hperm. reflexivity. }
  assert (Hrun : FileManager.cleanup_old_backups d keep_last_n
                 = (Z.of_nat (length (FileManager.unlink_each d (map fst old))),
                    FileManager.unlink_each d (map fst old))).
  { unfold FileManager.cleanup_old_backups. rewrite Hex. simpl.
    rewrite (keyed_times d _ mtime Hstat). fold ordered.
    unfold FileManager.slice_from.
    replace (0 <=? keep_last_n) with false by (symmetry; apply Z.leb_gt; exact Hneg).
    rewrite length_map, Hlen. subst old. rewrite <- fmap_drop. reflexivity. }
  subst count deleted. rewrite Hrun. simpl.
  split; [exact Hperm |].
  split; [subst old; rewrite length_drop; lia |].
  split; [subst spared; rewrite length_take; lia |].
  split.
  { intros a b Ha Hb.
    apply (sorted_split spared old); [|exact Ha | exact Hb].
    subst spared old. rewrite take_drop. apply newest_first_sorted. }
  split; [apply unlink_each_sublist |].
  intros Hall.
  assert (Hdel : FileManager.unlink_each d (map fst old) = map fst old).
  { apply unlink_each_all. intros f Hf. apply Hall.
    apply list_elem_of_fmap in Hf as (a & -> & Ha).
    assert (Hin : a ∈ map (fun f => (f, mtime f)) (FileManager.glob_all d)).
    { rewrite <- Hperm, <- (take_drop (Z.to_nat (n + keep_last_n)) ordered).
      apply elem_of_app. right. exact Ha. }
    apply list_elem_of_fmap in Hin as (f & -> & Hf). exact Hf. }
  rewrite Hdel.
  split; [reflexivity |].
  split; [rewrite length_map; subst old; rewrite length_drop; lia |].
  intros Hfew. subst old.
  replace (Z.to_nat (n + keep_last_n)) with 0%nat by lia. reflexivity.
Qed.

(** X18.  [cleanup_old_backups] gives up without removing anything, and
    returns 0, when the directory does not exist or when a single one of its
    files cannot be examined: the times are all read before any file is
    removed. *)
Theorem cleanup_gives_up (d : FileManager.BackupDir) (keep_last_n : Z) :
  (FileManager.dir_exists d = false
   \/ exists f e, f ∈ FileManager.glob_all d /\ FileManager.st_mtime d f = Raises e) ->
  FileManager.cleanup_old_backups d keep_last_n = (0, []).
Proof.
  intros [Hno | (f & e & Hin & Hf)]; unfold FileManager.cleanup_old_backups.
  - rewrite Hno. reflexivity.
  - destruct (FileManager.dir_exists d); [|reflexivity]. simpl.
    destruct (keyed_raises d _ f e Hin Hf) as [e' ->]. reflexivity.
Qed.

(** X19.  Whatever the configuration file holds, the loaded configuration
    has every key of the defaults, so the lookups the processor makes in it
    find a value.  A member of the user's file replaces the default of the
    same name as a whole, a key the file does not mention keeps its default,
    and when no path is given, the file does not exist or cannot be read or
    parsed, the configuration is the defaults. *)
Theorem load_config_keeps_defaults (config_path : option string) (path_exists : bool)
    (loaded : outcome (gmap string ConfigFile.Json)) :
  let cfg := ConfigFile._load_config config_path path_exists loaded in
  dom ConfigFile.default_config ⊆ dom cfg
  /\ (forall path user,
        config_path = Some path -> path <> "" -> path_exists = true ->
        loaded = Returns user ->
        forall key,
          cfg !! key
          = match user !! key with
            | Some v => Some v
            | None => ConfigFile.default_config !! key
            end)
  /\ (config_path = None \/ config_path = Some "" \/ path_exists = false
      \/ (exists e, loaded = Raises e) ->
      cfg = ConfigFile.default_config).
Proof.
  intros cfg. subst cfg. unfold ConfigFile._load_config.
  split.
  - destruct config_path as [[|c s]|]; try reflexivity.
    destruct path_exists; [|reflexivity].
    destruct loaded as [user|e]; [|reflexivity].
    rewrite dom_union. set_solver.
  - split.
    + intros path user -> Hne -> -> key.
      destruct path as [|c s]; [congruence |].
      rewrite lookup_union. destruct (user !! key), (ConfigFile.default_config !! key);
        reflexivity.
    + intros [-> | [-> | [-> | [e ->]]]]; try reflexivity.
      * destruct config_path as [[|c s]|]; reflexivity.
      * destruct config_path as [[|c s]|]; try reflexivity.
        destruct path_exists; reflexivity.
Qed.

(* ------------------------------------------------------------------ *)
(** ** The removal of artifacts

    [process_file] calls [self.artifact_remover.process_full], a method the
    class [ArtifactRemover] does not have: in a world that is [faithful] to
    the code the call raises whenever it is made, and it is made whenever
    [remove_artifacts] is set, as it is by default. *)

Section ArtifactRemovalFacts.

Import WatchFolderProcessor.

Lemma try_body_unsupported w cfg path r hs :
  faithful w ->
  remove_artifacts cfg = true ->
  Result.success r = false ->
  Result.success (fst (snd (try_body w cfg path (r, hs)))) = false.
Proof.
  intros Hw Hrm Hr. unfold try_body. rewrite Hrm.
  destruct (validate_audio_file w path) as [valid err]. destruct valid; simpl.
  - unfold mbind, try_bind, bind, call, update, ret, mark_handlers. simpl.
    repeat (case_match; simpl in *; simplify_eq); try assumption;
      match goal with
      | H : process_full w _ _ = Returns _ |- _ => rewrite Hw in H; discriminate
      end.
  - exact Hr.
Qed.

Lemma process_file_unsupported w task p :
  faithful w ->
  remove_artifacts (config p) = true ->
  Result.success (fst (process_file w task p)) = false.
Proof.
  intros Hw Hrm. unfold process_file.
  match goal with
  | |- context [try_body w ?c ?f (?r0, ?hs0)] =>
      pose proof (try_body_unsupported w c f r0 hs0 Hw Hrm eq_refl) as H;
      destruct (try_body w c f (r0, hs0)) as [o [r hs]]
  end.
  simpl in *. destruct o; simpl; exact H.
Qed.

(** When every call before it returns, the message on record is the one of
    the missing method. *)
Lemma process_file_unsupported_message w task p audio sr :
  faithful w ->
  remove_artifacts (config p) = true ->
  fst (validate_audio_file w (file_path task)) = true ->
  ensure_directory w
    (PathLib.join (PathLib.parent (file_path task)) (output_folder (config p)))
  = Returns tt ->
  (backup_original (config p) = true ->
   ensure_directory w
     (PathLib.join (PathLib.parent (file_path task)) (backup_folder (config p)))
   = Returns tt
   /\ copy2 w (file_path task)
        (PathLib.join
           (PathLib.join (PathLib.parent (file_path task)) (backup_folder (config p)))
           (String.append "original_" (PathLib.name (file_path task))))
      = Returns tt) ->
  librosa_load w (file_path task) (sample_rate (config p)) = Returns (audio, sr) ->
  Result.errors (fst (process_file w task p)) = [no_process_full].
Proof.
  intros Hw Hrm Hvalid Hout Hback Hload. unfold process_file, try_body.
  destruct (validate_audio_file w (file_path task)) as [valid err].
  simpl in Hvalid. subst valid. simpl.
  unfold mbind, try_bind, bind, call, update, ret, mark_handlers. simpl.
  rewrite Hout, Hrm.
  destruct (backup_original (config p)) eqn:Hb; simpl.
  - destruct (Hback eq_refl) as [-> ->]. simpl. rewrite Hload. simpl.
    rewrite Hw. reflexivity.
  - rewrite Hload. simpl. rewrite Hw. reflexivity.
Qed.

(** Runs whose worker passes are faithful to the code, under a
    configuration with [remove_artifacts] set: no handler ever marks a
    path, and every completed task counts as failed. *)
Lemma perform_unsupported a p p' :
  faithful_action a ->
  remove_artifacts (config p) = true ->
  (forall folder h, handlers p !! folder = Some h -> h = WatchFolderHandler.init) ->
  perform a p = Some p' ->
  (forall folder h, handlers p' !! folder = Some h -> h = WatchFolderHandler.init)
  /\ (forall r, completed a p = Some r -> Result.success r = false).
Proof.
  intros Ha Hrm Hinv Hp.
  destruct a as [w f|w path priority|w f kind event| | |w worker_id]; simpl in Hp.
  - split; [|discriminate].
    unfold add_watch_folder in Hp.
    assert (Hcase : p' = p
                    \/ p' = with_handlers (<[ f := WatchFolderHandler.init ]> (handlers p)) p).
    { repeat case_match; simplify_eq; auto. }
    destruct Hcase as [-> | ->]; [exact Hinv |]. simpl. intros folder h.
    destruct (decide (f = folder)) as [-> | Hne].
    + rewrite lookup_insert_eq. intros [= <-]. reflexivity.
    + rewrite lookup_insert_ne by exact Hne. apply Hinv.
  - injection Hp as <-. split; [|discriminate].
    rewrite enqueue_file_handlers. exact Hinv.
  - injection Hp as <-. split; [|discriminate].
    rewrite deliver_handlers. exact Hinv.
  - injection Hp as <-. split; [exact Hinv | discriminate].
  - injection Hp as <-. split; [exact Hinv | discriminate].
  - destruct (running p); [|discriminate]. injection Hp as <-. simpl in Ha.
    unfold _worker_pass. simpl.
    destruct (ProcessingQueue.dequeue (queue p)) as [[task|] q']; simpl;
      [|split; [exact Hinv | discriminate]].
    pose proof (process_file_unsupported w task (with_queue q' p) Ha Hrm) as Hfail.
    destruct (process_file_cases w task (with_queue q' p)) as (_ & _ & _ & _ & H).
    destruct H as [(Hh & _) | (_ & Hs & _)]; [|congruence].
    split; [|intros r [= <-]; exact Hfail].
    destruct (process_file w task (with_queue q' p)) as [r p1]. simpl in *.
    destruct (_log_result _ _ _ _); simpl; rewrite Hh; exact Hinv.
Qed.

Lemma run_unsupported acts p p' :
  Forall faithful_action acts ->
  remove_artifacts (config p) = true ->
  (forall folder h, handlers p !! folder = Some h -> h = WatchFolderHandler.init) ->
  run acts p = Some p' ->
  (forall folder h, handlers p' !! folder = Some h -> h = WatchFolderHandler.init)
  /\ Forall (fun r => Result.success r = false) (results acts p).
Proof.
  revert p. induction acts as [|a acts IH]; intros p Hacts Hrm Hinv; simpl.
  - intros [= <-]. split; [exact Hinv | constructor].
  - apply Forall_cons in Hacts as [Ha Hacts].
    destruct (perform a p) as [p1|] eqn:Hp; [|discriminate].
    intros Hrun.
    destruct (perform_unsupported _ _ _ Ha Hrm Hinv Hp) as [Hinv1 Hdone].
    assert (Hrm1 : remove_artifacts (config p1) = true)
      by (rewrite (perform_config _ _ _ Hp); exact Hrm).
    destruct (IH p1 Hacts Hrm1 Hinv1 Hrun) as [Hh Hres].
    split; [exact Hh |].
    destruct (completed a p) as [r|]; [|exact Hres].
    constructor; [apply Hdone; reflexivity | exact Hres].
Qed.

Lemma failures_all rs :
  Forall (fun r => Result.success r = false) rs -> failures rs = rs.
Proof.
  unfold failures. induction 1 as [|r rs Hr _ IH]; [reflexivity |].
  rewrite filter_cons_True by exact Hr. rewrite IH. reflexivity.
Qed.

End ArtifactRemovalFacts.

(** X20.  With [remove_artifacts] set, as it is by default, no call of
    [process_file] succeeds: the call of [process_full], a method
    [ArtifactRemover] does not have, raises once the file has been loaded.
    The result is unsuccessful and has no output path, the processor is left
    as it was (no handler marks the path), and when every call before the
    removal of artifacts returns, the one error on record is the
    AttributeError of the missing method. *)
Theorem artifact_removal_always_fails (w : World) (task : Task)
    (p : WatchFolderProcessor.t) (audio : Audio) (sr : Z) :
  faithful w ->
  remove_artifacts (WatchFolderProcessor.config p) = true ->
  let cfg := WatchFolderProcessor.config p in
  let result := fst (WatchFolderProcessor.process_file w task p) in
  let backup_dir := PathLib.join (PathLib.parent (file_path task)) (backup_folder cfg) in
  Result.success result = false
  /\ snd (WatchFolderProcessor.process_file w task p) = p
  /\ Result.output_path result = None
  /\ (exists msg, Result.errors result = [msg])
  /\ (fst (validate_audio_file w (file_path task)) = true ->
      ensure_directory w (PathLib.join (PathLib.parent (file_path task)) (output_folder cfg))
      = Returns tt ->
      (backup_original cfg = true ->
       ensure_directory w backup_dir = Returns tt
       /\ copy2 w (file_path task)
            (PathLib.join backup_dir
               (String.append "original_" (PathLib.name (file_path task))))
          = Returns tt) ->
      librosa_load w (file_path task) (sample_rate cfg) = Returns (audio, sr) ->
      Result.errors result = [no_process_full]).
Proof.
  intros Hw Hrm cfg result backup_dir.
  pose proof (process_file_unsupported w task p Hw Hrm) as Hfail.
  split; [exact Hfail |].
  destruct (process_file_cases w task p) as (_ & _ & _ & _ & [H | H]);
    [|destruct H as (_ & Hs & _); congruence].
  destruct H as (Hh & _ & Hmsg).
  split; [rewrite process_file_rest, Hh; destruct p; reflexivity |].
  split.
  { subst result. revert Hfail. unfold WatchFolderProcessor.process_file.
    match goal with
    | |- context [WatchFolderProcessor.try_body w ?c ?f (?r0, ?hs0)] =>
        generalize (try_body_output w c f r0 hs0 eq_refl eq_refl);
        destruct (WatchFolderProcessor.try_body w c f (r0, hs0)) as [o [r hs]]
    end.
    simpl. destruct o; simpl; intros Hout Hs; apply Hout; exact Hs. }
  split; [exact Hmsg |].
  intros Hvalid Hout Hback Hload.
  apply (process_file_unsupported_message w task p audio sr); assumption.
Qed.

(** X21.  Under a configuration with [remove_artifacts] set, as the default
    configuration has it, the processor never processes a file with
    success: in every state of a run whose worker passes are faithful to
    the code, every completed task has an unsuccessful result,
    [failed_files] equals [processed_files], and every handler is as it was
    when its folder was added, with no path among its processed files. *)
Theorem nothing_succeeds_with_artifact_removal (cfg : Config) (acts : list Action)
    (p : WatchFolderProcessor.t) :
  remove_artifacts cfg = true ->
  Forall faithful_action acts ->
  run acts (WatchFolderProcessor.init cfg) = Some p ->
  let done := results acts (WatchFolderProcessor.init cfg) in
  Forall (fun r => Result.success r = false) done
  /\ Stats.processed_files (WatchFolderProcessor.stats p) = Z.of_nat (length done)
  /\ Stats.failed_files (WatchFolderProcessor.stats p)
     = Stats.processed_files (WatchFolderProcessor.stats p)
  /\ (forall folder h,
        WatchFolderProcessor.handlers p !! folder = Some h ->
        h = WatchFolderHandler.init
        /\ WatchFolderHandler.processed_files h = ∅)
  /\ remove_artifacts default_config = true.
Proof.
  intros Hrm Hacts Hrun done.
  destruct (run_unsupported acts (WatchFolderProcessor.init cfg) p Hacts Hrm) as [Hh Hres];
    [intros folder h Hin; simpl in Hin; rewrite lookup_empty in Hin; discriminate
    | exact Hrun |].
  destruct (run_stats _ _ _ Hrun) as (Hproc & Hfail & _).
  fold done in Hres, Hproc, Hfail. rewrite (failures_all _ Hres) in Hfail.
  simpl in Hproc, Hfail.
  split; [exact Hres |].
  split; [lia |].
  split; [lia |].
  split; [|reflexivity].
  intros folder h Hin. rewrite (Hh _ _ Hin). split; reflexivity.
Qed.

(* ------------------------------------------------------------------ *)
(** ** Overlapping calls of [enqueue_file] *)

Section ConcurrentFacts.

Import WatchFolderProcessor Concurrent.

Lemma admitted_insert (l : list Stage) (i : nat) (x y : Stage) :
  l !! i = Some x ->
  (admitted (<[ i := y ]> l) + (if decide (x = SawRoom) then 1 else 0)
   = admitted l + (if decide (y = SawRoom) then 1 else 0))%nat.
Proof.
  unfold admitted. revert i. induction l as [|a l IH]; intros i Hi; [discriminate |].
  destruct i as [|i]; simpl in *.
  - injection Hi as ->. rewrite !filter_cons.
    destruct (decide (x = SawRoom)), (decide (y = SawRoom)); simpl; lia.
  - specialize (IH i Hi). rewrite !filter_cons.
    destruct (decide (a = SawRoom)); simpl; lia.
Qed.

Lemma admitted_bound (l : list Stage) : (admitted l <= length l)%nat.
Proof. apply length_filter. Qed.

Lemma put_task_size w path priority p :
  ProcessingQueue.size (queue (put_task w path priority p))
  = ProcessingQueue.size (queue p) + 1
  /\ config (put_task w path priority p) = config p.
Proof.
  unfold put_task, ProcessingQueue.size, ProcessingQueue.enqueue, ProcessingQueue.put.
  simpl. rewrite length_app. simpl. split; [lia | reflexivity].
Qed.

(** What the steps of the callers keep true: the size of the queue and the
    callers that are about to put stay within the bound. *)
Lemma step_bound calls i s (bound : Z) :
  max_queue_size (config (processor s)) - 1 + Z.of_nat (length (stages s)) <= bound ->
  ProcessingQueue.size (queue (processor s)) + Z.of_nat (admitted (stages s)) <= bound ->
  let s' := step calls i s in
  config (processor s') = config (processor s)
  /\ length (stages s') = length (stages s)
  /\ ProcessingQueue.size (queue (processor s')) + Z.of_nat (admitted (stages s')) <= bound.
Proof.
  intros Hk Hinv. unfold step.
  destruct (calls !! i) as [c|]; [|auto].
  destruct (stages s !! i) as [[| |b]|] eqn:Hi; [| |auto|auto].
  - unfold queue_full.
    destruct (_ >=? _) eqn:Hfull; simpl; rewrite length_insert.
    + pose proof (admitted_insert _ i _ (Answered false) Hi) as Ha.
      destruct (decide (Start = SawRoom)); [discriminate |].
      destruct (decide (Answered false = SawRoom)); [discriminate |].
      split; [reflexivity |]. split; [reflexivity |]. lia.
    + rewrite Z.geb_leb in Hfull. apply Z.leb_gt in Hfull.
      pose proof (admitted_bound (<[ i := SawRoom ]> (stages s))) as Hb.
      rewrite length_insert in Hb.
      split; [reflexivity |]. split; [reflexivity |]. lia.
  - cbn [processor stages]. rewrite length_insert.
    destruct (put_task_size (call_world c) (call_path c) (call_priority c) (processor s))
      as [-> ->].
    pose proof (admitted_insert _ i _ (Answered true) Hi) as Ha.
    destruct (decide (SawRoom = SawRoom)); [|congruence].
    destruct (decide (Answered true = SawRoom)); [discriminate |].
    split; [reflexivity |]. split; [reflexivity |]. lia.
Qed.

Lemma schedule_bound calls order s (bound : Z) :
  max_queue_size (config (processor s)) - 1 + Z.of_nat (length (stages s)) <= bound ->
  ProcessingQueue.size (queue (processor s)) + Z.of_nat (admitted (stages s)) <= bound ->
  ProcessingQueue.size (queue (processor (schedule calls order s))) <= bound.
Proof.
  unfold schedule. revert s. induction order as [|i order IH]; intros s Hk Hinv; simpl.
  - lia.
  - destruct (step_bound calls i s bound Hk Hinv) as (Hc & Hl & Hs).
    apply IH; [rewrite Hc, Hl; exact Hk | exact Hs].
Qed.

Lemma admitted_start n : admitted (replicate n Start) = 0%nat.
Proof.
  unfold admitted. induction n as [|n IH]; simpl; [reflexivity |].
  rewrite filter_cons. destruct (decide (Start = SawRoom)); [discriminate | exact IH].
Qed.

End ConcurrentFacts.

(** X22.  The capacity is no bound on the queue when calls of
    [enqueue_file] overlap.  A call whose test and put are not separated by
    the step of another caller is the call as it stands in the code.  But
    two callers that both test before either puts are both answered [True]
    on a queue with room for one task only, which then holds one task more
    than [max_queue_size].  However the steps of the callers alternate,
    the queue never holds more than [max_queue_size - 1] tasks and one task
    of every caller (or what it held at the start, if that was more). *)
Theorem overlapping_calls_exceed_capacity (p : WatchFolderProcessor.t)
    (calls : list Concurrent.Call) (order : list nat) :
  (forall w path priority,
      WatchFolderProcessor.enqueue_file w path priority p
      = if Concurrent.queue_full p then (false, p)
        else (true, Concurrent.put_task w path priority p))
  /\ (forall c,
        calls = [c] ->
        let s := Concurrent.schedule calls [0%nat; 0%nat] (Concurrent.start calls p) in
        let answer :=
          WatchFolderProcessor.enqueue_file (Concurrent.call_world c)
            (Concurrent.call_path c) (Concurrent.call_priority c) p in
        Concurrent.processor s = snd answer
        /\ Concurrent.stages s = [Concurrent.Answered (fst answer)])
  /\ (forall c1 c2,
        calls = [c1; c2] ->
        ProcessingQueue.size (WatchFolderProcessor.queue p) + 1
        = max_queue_size (WatchFolderProcessor.config p) ->
        let s := Concurrent.schedule calls [0%nat; 1%nat; 0%nat; 1%nat]
                   (Concurrent.start calls p) in
        Concurrent.stages s = [Concurrent.Answered true; Concurrent.Answered true]
        /\ ProcessingQueue.size (WatchFolderProcessor.queue (Concurrent.processor s))
           = max_queue_size (WatchFolderProcessor.config p) + 1)
  /\ ProcessingQueue.size
       (WatchFolderProcessor.queue
          (Concurrent.processor
             (Concurrent.schedule calls order (Concurrent.start calls p))))
     <= Z.max (ProcessingQueue.size (WatchFolderProcessor.queue p))
          (max_queue_size (WatchFolderProcessor.config p) - 1 + Z.of_nat (length calls)).
Proof.
  split.
  { intros w path priority.
    unfold WatchFolderProcessor.enqueue_file, Concurrent.queue_full, Concurrent.put_task.
    destruct (_ >=? _); reflexivity. }
  split.
  { intros c -> s answer. subst s answer.
    unfold WatchFolderProcessor.enqueue_file, Concurrent.schedule, Concurrent.start,
      Concurrent.step, Concurrent.queue_full, Concurrent.put_task.
    simpl. destruct (_ >=? _); simpl; split; reflexivity. }
  split.
  { intros c1 c2 -> Hroom s. subst s.
    unfold Concurrent.schedule, Concurrent.start, Concurrent.step, Concurrent.queue_full.
    simpl.
    destruct (_ >=? _) eqn:Hfull;
      [rewrite Z.geb_leb in Hfull; apply Z.leb_le in Hfull; lia |].
    simpl. rewrite Hfull. simpl. split; [reflexivity |].
    unfold Concurrent.put_task, ProcessingQueue.size, ProcessingQueue.enqueue,
      ProcessingQueue.put in *.
    simpl. rewrite !length_app. simpl. lia. }
  apply schedule_bound; unfold Concurrent.start; simpl.
  - rewrite length_replicate. lia.
  - rewrite admitted_start. lia.
Qed.

(* ------------------------------------------------------------------ *)
(** ** The further properties at concrete inputs *)



(** Room for one task: the call for the song is answered [True], the call
    for the other file [False]; the song is the one task submitted, and it
    is the one task completed. *)
Lemma tasks_conserved_witness :
  let acts := [ StartWorkers;
                EnqueueFile (Sample.calm 0%Q) Sample.song "high";
                EnqueueFile (Sample.calm 1%Q) "in/other.wav" "low";
                WorkerPass Sample.file_gone 0 ] in
  let p0 := WatchFolderProcessor.init (Sample.cfg 1 false) in
  exists p,
    run acts p0 = Some p
    /\ all_submitted acts p0 = [Sample.song_task]
    /\ all_submitted acts p0
       ≡ₚ (map ProcessingQueue.entry_item
             (ProcessingQueue.queue (WatchFolderProcessor.queue p))
           ++ map Result.task (results acts p0))%list.
Proof.
  intros acts p0.
  destruct (run acts p0) as [p|] eqn:Hrun; [|vm_compute in Hrun; discriminate].
  exists p. split; [reflexivity |].
  split; [vm_compute; reflexivity |].
  apply (tasks_neither_lost_nor_duplicated _ _ _ Hrun).
Defined.


Lemma log_directory_failure_witness :
  exists task q',
    ProcessingQueue.dequeue (WatchFolderProcessor.queue Example.ready) = (Some task, q')
    /\ ensure_directory Example.log_denied
         (PathLib.parent (log_file (WatchFolderProcessor.config Example.ready)))
       = Raises "[Errno 13] Permission denied"
    /\ WatchFolderProcessor.escaped
         (WatchFolderProcessor._worker_loop [Example.log_denied; Sample.calm 1%Q] 0
            Example.ready)
       = Some "[Errno 13] Permission denied".
Proof.
  destruct (ProcessingQueue.dequeue (WatchFolderProcessor.queue Example.ready))
    as [[task|] q'] eqn:Hdq; [|vm_compute in Hdq; discriminate].
  exists task, q'. split; [reflexivity |]. split; [reflexivity |].
  apply (log_directory_failure_ends_worker Example.log_denied [Sample.calm 1%Q] 0
           Example.ready task q' _ eq_refl Hdq eq_refl).
Defined.

Lemma recorded_times_witness :
  exists p h,
    run Sample.song_processed (WatchFolderProcessor.init (Sample.plain 100 false)) = Some p
    /\ WatchFolderProcessor.handlers p !! "in" = Some h
    /\ Sample.song ∈ WatchFolderHandler.processed_files h
    /\ dom (WatchFolderHandler.last_processed h) = WatchFolderHandler.processed_files h.
Proof.
  destruct (run Sample.song_processed (WatchFolderProcessor.init (Sample.plain 100 false)))
    as [p|] eqn:Hrun; [|vm_compute in Hrun; discriminate].
  destruct (WatchFolderProcessor.handlers p !! "in") as [h|] eqn:Hh.
  - exists p, h. split; [reflexivity |]. split; [exact Hh |].
    split.
    + vm_compute in Hrun. injection Hrun as <-. vm_compute in Hh. injection Hh as <-.
      apply (bool_decide_eq_true_1 _). vm_compute. reflexivity.
    + apply (recorded_times_never_matter _ _ _ _ _ (Sample.calm 0%Q) Sample.song_event
               Hrun Hh).
  - vm_compute in Hrun. injection Hrun as <-. vm_compute in Hh. discriminate.
Defined.

Lemma priority_decides_witness :
  let q := ProcessingQueue.enqueue Sample.song_task 1 ProcessingQueue.init in
  fresh_ids q
  /\ fst (ProcessingQueue.dequeue
            (ProcessingQueue.enqueue (ExistingFiles.low_task (Sample.calm 0%Q) "new.wav") 0 q))
     = Some (ExistingFiles.low_task (Sample.calm 0%Q) "new.wav").
Proof.
  intros q.
  assert (Hf : fresh_ids q) by (apply enqueue_fresh; split; constructor).
  split; [exact Hf |].
  apply (priority_decides_next_task _ 0 q Hf).
  repeat constructor.
Defined.

Lemma failed_processing_witness :
  Result.success
    (fst (WatchFolderProcessor.process_file Sample.file_gone Sample.song_task Example.ready))
  = false
  /\ snd (WatchFolderProcessor.process_file Sample.file_gone Sample.song_task Example.ready)
     = Example.ready.
Proof.
  assert (Hfail : Result.success
            (fst (WatchFolderProcessor.process_file Sample.file_gone Sample.song_task
                    Example.ready)) = false) by (vm_compute; reflexivity).
  split; [exact Hfail |].
  apply (failed_processing_changes_nothing _ _ _ Hfail).
Defined.


Lemma existing_files_witness :
  run Example.ready_acts (WatchFolderProcessor.init default_config) = Some Example.ready
  /\ map file_path
       (ProcessingQueue.dequeue_all
          (WatchFolderProcessor.queue
             (ExistingFiles.process_existing_files Example.folders (Sample.calm 5%Q)
                (Some "in") Example.ready)))
     = [Sample.song; "in/a.wav"; "in/b.mp3"].
Proof.
  split; [reflexivity |].
  rewrite (existing_files_wait_behind default_config Example.ready_acts Example.ready
             Example.folders (Sample.calm 5%Q) "in" eq_refl);
    [vm_compute; reflexivity | discriminate | reflexivity | vm_compute; discriminate].
Defined.

Lemma handler_extensions_witness :
  supported "in/a.wav"
  /\ FileManager.is_audio_file "in/a.wav" = true
  /\ Str.lower (PathLib.suffix "in/take.AIF") = ".aif"
  /\ WatchFolderEvents.deliver (Sample.calm 0%Q) "in" WatchFolderEvents.Created
       (mkEvent false "in/take.AIF") Example.ready = Example.ready.
Proof.
  assert (Hs : supported "in/a.wav")
    by (apply (bool_decide_eq_true_1 _); vm_compute; reflexivity).
  destruct (handler_extensions_are_audio "in/a.wav") as (Hsup & _).
  destruct (handler_extensions_are_audio "in/take.AIF") as (_ & _ & Hskip).
  split; [exact Hs |]. split; [exact (Hsup Hs) |]. split; [reflexivity |].
  apply (Hskip (or_introl eq_refl)).
Defined.

Lemma compare_hash_trees_witness :
  FileManager.changed (FileManager.compare_hash_trees Example.tree Example.touched_tree) = ∅.
Proof.
  apply (compare_hash_trees_modified Example.tree Example.touched_tree).
  intros f o n Ho Hn. unfold Example.tree, Example.touched_tree in *.
  apply lookup_singleton_Some in Ho as [<- <-].
  apply lookup_singleton_Some in Hn as [_ <-]. split; reflexivity.
Defined.

Lemma cleanup_witness :
  FileManager.dir_exists Example.backups = true
  /\ 0 <= 1
  /\ snd (FileManager.cleanup_old_backups Example.backups 1) = ["b3"; "b1"].
Proof.
  split; [reflexivity |]. split; [lia |].
  pose proof (cleanup_keeps_the_newest Example.backups 1 Example.backup_time eq_refl
                ltac:(lia) (fun f _ => eq_refl)) as H.
  cbv zeta in H. destruct H as (_ & _ & _ & _ & _ & Hall).
  rewrite Hall; [vm_compute; reflexivity |]. intros f _. reflexivity.
Defined.

(** Of the three backups, a count of -1 removes the oldest only, and a
    count of -3 removes them all. *)
Lemma cleanup_negative_witness :
  -1 < 0
  /\ FileManager.cleanup_old_backups Example.backups (-1) = (1, ["b1"])
  /\ -3 < 0
  /\ snd (FileManager.cleanup_old_backups Example.backups (-3)) = ["b2"; "b3"; "b1"].
Proof.
  assert (Hone : -1 < 0) by lia.
  assert (Hthree : -3 < 0) by lia.
  split; [exact Hone |].
  pose proof (cleanup_negative_keep Example.backups (-1) Example.backup_time Hone) as H1.
  pose proof (cleanup_negative_keep Example.backups (-3) Example.backup_time Hthree) as H3.
  cbv zeta in H1, H3.
  destruct H1 as (_ & _ & H1). destruct H3 as (_ & _ & H3).
  destruct (H1 eq_refl (fun f _ => eq_refl)) as (_ & _ & _ & _ & _ & H1').
  destruct (H3 eq_refl (fun f _ => eq_refl)) as (_ & _ & _ & _ & _ & H3').
  destruct (H1' (fun f _ => eq_refl)) as (Hdel1 & Hcount1 & _).
  destruct (H3' (fun f _ => eq_refl)) as (_ & _ & Hdel3).
  split.
  { rewrite (surjective_pairing (FileManager.cleanup_old_backups Example.backups (-1))).
    rewrite Hdel1, Hcount1. vm_compute. reflexivity. }
  split; [exact Hthree |].
  rewrite Hdel3; [vm_compute; reflexivity | vm_compute; discriminate].
Defined.

Lemma cleanup_gives_up_witness :
  FileManager.dir_exists Example.missing_backups = false
  /\ FileManager.cleanup_old_backups Example.missing_backups 5 = (0, []).
Proof.
  split; [reflexivity |].
  apply (cleanup_gives_up Example.missing_backups 5). left. reflexivity.
Defined.

Lemma load_config_witness :
  let cfg := ConfigFile._load_config (Some "suno_watchdog_config.json") true
               (Returns Example.user_config) in
  cfg !! "max_workers" = Some (ConfigFile.JNumber 4)
  /\ cfg !! "max_queue_size" = Some (ConfigFile.JNumber 100).
Proof.
  intros cfg.
  destruct (load_config_keeps_defaults (Some "suno_watchdog_config.json") true
              (Returns Example.user_config)) as (_ & Huser & _).
  fold cfg in Huser.
  split.
  - rewrite (Huser _ _ eq_refl ltac:(discriminate) eq_refl eq_refl "max_workers").
    vm_compute. reflexivity.
  - rewrite (Huser _ _ eq_refl ltac:(discriminate) eq_refl eq_refl "max_queue_size").
    vm_compute. reflexivity.
Defined.

(** The song under the default configuration: every call before the
    removal of artifacts returns, and the missing method is the error on
    record. *)
Lemma artifact_removal_witness :
  faithful (Sample.calm 0%Q)
  /\ remove_artifacts default_config = true
  /\ Result.success
       (fst (WatchFolderProcessor.process_file (Sample.calm 0%Q) Sample.song_task
               Example.ready)) = false
  /\ Result.errors
       (fst (WatchFolderProcessor.process_file (Sample.calm 0%Q) Sample.song_task
               Example.ready))
     = ["'ArtifactRemover' object has no attribute 'process_full'"].
Proof.
  assert (Hw : faithful (Sample.calm 0%Q)) by (intros audio intensity; reflexivity).
  split; [exact Hw |]. split; [reflexivity |].
  pose proof (artifact_removal_always_fails (Sample.calm 0%Q) Sample.song_task
                Example.ready Sample.stereo 44100 Hw eq_refl) as H.
  cbv zeta in H. destruct H as (Hfail & _ & _ & _ & Hmsg).
  split; [exact Hfail |].
  apply Hmsg; [reflexivity | reflexivity | intros _; split; reflexivity | reflexivity].
Defined.

(** The song is watched, enqueued and processed under the default
    configuration: one task completed, and it failed. *)
Lemma nothing_succeeds_witness :
  exists p,
    run Sample.song_processed (WatchFolderProcessor.init default_config) = Some p
    /\ Forall faithful_action Sample.song_processed
    /\ map Result.success
         (results Sample.song_processed (WatchFolderProcessor.init default_config))
       = [false]
    /\ Stats.failed_files (WatchFolderProcessor.stats p) = 1
    /\ WatchFolderProcessor.handlers p !! "in" = Some WatchFolderHandler.init.
Proof.
  destruct (run Sample.song_processed (WatchFolderProcessor.init default_config))
    as [p|] eqn:Hrun; [|vm_compute in Hrun; discriminate].
  assert (Hacts : Forall faithful_action Sample.song_processed).
  { repeat constructor; intros audio intensity; reflexivity. }
  exists p. split; [reflexivity |]. split; [exact Hacts |].
  pose proof (nothing_succeeds_with_artifact_removal default_config Sample.song_processed
                p eq_refl Hacts Hrun) as H.
  cbv zeta in H. destruct H as (_ & Hproc & Hfail & _).
  split; [vm_compute; reflexivity |].
  split; [rewrite Hfail, Hproc; vm_compute; reflexivity |].
  vm_compute in Hrun. injection Hrun as <-. vm_compute. reflexivity.
Defined.

(** Two callers and room for one task: both are answered [True] and the
    queue holds two tasks. *)
Lemma overlapping_calls_witness :
  let p := WatchFolderProcessor.init (Sample.cfg 1 false) in
  let calls := [ Concurrent.mkCall (Sample.calm 0%Q) Sample.song "high";
                 Concurrent.mkCall (Sample.calm 0%Q) "in/other.wav" "low" ] in
  let s := Concurrent.schedule calls [0%nat; 1%nat; 0%nat; 1%nat]
             (Concurrent.start calls p) in
  max_queue_size (WatchFolderProcessor.config p) = 1
  /\ Concurrent.stages s = [Concurrent.Answered true; Concurrent.Answered true]
  /\ ProcessingQueue.size (WatchFolderProcessor.queue (Concurrent.processor s)) = 2.
Proof.
  intros p calls s.
  split; [reflexivity |].
  destruct (overlapping_calls_exceed_capacity p calls []) as (_ & _ & Htwo & _).
  destruct (Htwo _ _ eq_refl) as [Hstages Hsize]; [vm_compute; reflexivity |].
  split; [exact Hstages | exact Hsize].
Defined.
